(** * Verification of the mimodd sequence-read library

    Shallow embedding of the Python modules [seqtransform], [seqreads],
    [fastq] and [fasta].  The facade classes [fastq.SimpleSeqRead] and
    [pysaminter.PysamRead] are not modelled: their constructors pass
    [is_dna] to [SeqReadFacade.__init__], which takes [read_object] only, so
    no instance of them can be built.  Python [str] values are modelled as
    [String.string] over 8-bit characters (code points 0..255), Python
    exceptions as constructors of small error types, and generators as
    functions returning the list of yielded values together with how the
    iteration ended. *)

From Stdlib Require Import String Ascii List Bool Arith ZArith Lia.
Import ListNotations.
Open Scope bool_scope.

(** ** Character and string helpers (Python builtins) *)

Definition LF : ascii := "010"%char.

(** [str.isspace] for a single code point in the range 0..255. *)
Definition str_isspace (c : ascii) : bool :=
  let n := nat_of_ascii c in
  ((9 <=? n) && (n <=? 13)) || ((28 <=? n) && (n <=? 32))
  || (n =? 133) || (n =? 160).

(** [bytes.isspace] for a single byte. *)
Definition bytes_isspace (c : ascii) : bool :=
  let n := nat_of_ascii c in
  ((9 <=? n) && (n <=? 13)) || (n =? 32).

Fixpoint drop_while (p : ascii -> bool) (l : list ascii) : list ascii :=
  match l with
  | [] => []
  | c :: t => if p c then drop_while p t else l
  end.

(** [s.rstrip()] and [s.strip()] with a whitespace predicate. *)
Definition rstrip_with (sp : ascii -> bool) (s : string) : string :=
  string_of_list_ascii
    (rev (drop_while sp (rev (list_ascii_of_string s)))).

Definition strip_with (sp : ascii -> bool) (s : string) : string :=
  string_of_list_ascii
    (rev (drop_while sp (rev (drop_while sp (list_ascii_of_string s))))).

Definition rstrip := rstrip_with str_isspace.
Definition strip := strip_with str_isspace.

(** [s[::-1]] *)
Definition str_reverse (s : string) : string :=
  string_of_list_ascii (rev (list_ascii_of_string s)).

Fixpoint str_map (f : ascii -> ascii) (s : string) : string :=
  match s with
  | EmptyString => EmptyString
  | String c t => String (f c) (str_map f t)
  end.

(** [str.lower] restricted to the ASCII letters (the constants it is
    applied to in [seqtransform] are ASCII). *)
Definition ascii_lower (c : ascii) : ascii :=
  let n := nat_of_ascii c in
  if (65 <=? n) && (n <=? 90) then ascii_of_nat (n + 32) else c.

Definition lower (s : string) : string := str_map ascii_lower s.

(** ** Module [seqtransform] *)
Module SeqTransform.

Definition IUPAC_DNA : string := "AGRMHBSNWVDKYCT".
Definition IUPAC_RNA : string := "AGRMHBSNWVDKYCU".

Fixpoint list_set {A} (l : list A) (n : nat) (x : A) : list A :=
  match l, n with
  | [], _ => []
  | _ :: t, 0 => x :: t
  | h :: t, S m => h :: list_set t m x
  end.

(** [bytes.maketrans(frm, to)]: start from the identity table of 256
    entries and set [table[frm[i]] = to[i]] for each [i] in order. *)
Definition bytes_maketrans (frm to : string) : list ascii :=
  fold_left (fun tbl p => list_set tbl (nat_of_ascii (fst p)) (snd p))
    (combine (list_ascii_of_string frm) (list_ascii_of_string to))
    (map ascii_of_nat (seq 0 256)).

Definition DNA_TRANSLATION_TABLE : list ascii :=
  bytes_maketrans (IUPAC_DNA ++ lower IUPAC_DNA)
    (str_reverse IUPAC_DNA ++ lower (str_reverse IUPAC_DNA)).

Definition RNA_TRANSLATION_TABLE : list ascii :=
  bytes_maketrans (IUPAC_RNA ++ lower IUPAC_RNA)
    (str_reverse IUPAC_RNA ++ lower (str_reverse IUPAC_RNA)).

(** [str.translate(table)] with a 256-entry bytes table: every code point
    here is below 256, so [table[ord(c)]] is always defined. *)
Definition translate_char (tbl : list ascii) (c : ascii) : ascii :=
  nth (nat_of_ascii c) tbl c.

Definition translate (tbl : list ascii) (s : string) : string :=
  str_map (translate_char tbl) s.

Definition reverse (seq : string) : string := str_reverse seq.

Definition complement (seq : string) (is_dna : bool) : string :=
  if is_dna then translate DNA_TRANSLATION_TABLE seq
  else translate RNA_TRANSLATION_TABLE seq.

Definition reverse_complement (seq : string) (is_dna : bool) : string :=
  if is_dna then translate DNA_TRANSLATION_TABLE (str_reverse seq)
  else translate RNA_TRANSLATION_TABLE (str_reverse seq).

End SeqTransform.

(** ** [FastqReader._read_fastq_records] (text-mode source)

    The generator is primed in [__init__], which consumes the first line and
    fixes [title_token = '@'], [sep_token = '+'] and [glue = ''] for a [str]
    source.  The remaining [while True] loop is modelled with an explicit
    [fuel] counting its iterations; the two inner loops consume the source and
    are structurally recursive on it. *)
Module Fastq.

Definition record := (string * string * string)%type.

Inductive fq_error :=
  | FqIndexError                   (* [line[0]] on an empty line *)
  | FqTitleError (line : string)   (* 'Title line not starting with @' *)
  | FqNoSequence (title : string)  (* 'Record without sequence' *)
  | FqIncomplete (title : string)  (* 'Last record is incomplete' *)
  | FqLengthMismatch (title : string). (* 'inconsistent lengths' *)

(** How an iteration over the generator ends, with the records yielded
    before that point. [FqOutOfFuel] means the main loop was still running
    after [fuel] iterations. *)
Inductive fq_outcome :=
  | FqDone (recs : list record)
  | FqFailed (recs : list record) (e : fq_error)
  | FqOutOfFuel (recs : list record).

Definition fq_cons (r : record) (o : fq_outcome) : fq_outcome :=
  match o with
  | FqDone rs => FqDone (r :: rs)
  | FqFailed rs e => FqFailed (r :: rs) e
  | FqOutOfFuel rs => FqOutOfFuel (r :: rs)
  end.

(** [s[0] == token]; [None] stands for the [IndexError] of [""[0]]. *)
Definition first_char_is (s : string) (token : ascii) : option bool :=
  match s with
  | EmptyString => None
  | String c _ => Some (Ascii.eqb c token)
  end.

Definition title_token : ascii := "@".
Definition sep_token : ascii := "+".

(** [''.join(parts)] *)
Definition join (parts : list string) : string := String.concat "" parts.

(** First inner loop: collect sequence lines up to the separator line. *)
Inductive seq_scan :=
  | ScanStop                                  (* StopIteration *)
  | ScanIndexError                            (* IndexError *)
  | ScanSep (lines : list string) (rest : list string).

Fixpoint read_seq_lines (acc : list string) (src : list string) : seq_scan :=
  match src with
  | [] => ScanStop
  | l :: rest =>
      match first_char_is l sep_token with
      | None => ScanIndexError
      | Some true => ScanSep acc rest
      | Some false => read_seq_lines (acc ++ [rstrip l]) rest
      end
  end.

(** Second inner loop: [while seqlen > quallen]; [None] is StopIteration. *)
Fixpoint read_qual_lines (seqlen quallen : nat) (acc src : list string)
  {struct src} : option (list string * nat * list string) :=
  if quallen <? seqlen then
    match src with
    | [] => None
    | l :: rest =>
        let l' := rstrip l in
        read_qual_lines seqlen (quallen + String.length l') (acc ++ [l']) rest
    end
  else Some (acc, quallen, src).

Fixpoint fastq_loop (fuel : nat) (title : string) (src : list string)
  : fq_outcome :=
  match fuel with
  | 0 => FqOutOfFuel []
  | S fuel' =>
      match first_char_is title title_token with
      | None => FqFailed [] FqIndexError
      | Some false =>
          (* allow empty lines between records: [continue] *)
          if String.eqb (rstrip title) "" then fastq_loop fuel' title src
          else FqFailed [] (FqTitleError title)
      | Some true =>
          let t := rstrip (substring 1 (String.length title - 1) title) in
          match read_seq_lines [] src with
          | ScanIndexError => FqFailed [] FqIndexError
          | ScanStop => FqFailed [] (FqIncomplete t)
          | ScanSep lines rest =>
              let sq := join lines in
              let seqlen := String.length sq in
              if seqlen =? 0 then FqFailed [] (FqNoSequence t) else
              match read_qual_lines seqlen 0 [] rest with
              | None => FqFailed [] (FqIncomplete t)
              | Some (qlines, quallen, rest') =>
                  if seqlen <? quallen then FqFailed [] (FqLengthMismatch t)
                  else
                    fq_cons (t, sq, join qlines)
                      (match rest' with
                       | [] => FqDone []
                       | title' :: rest'' => fastq_loop fuel' title' rest''
                       end)
              end
          end
      end
  end.

(** Iteration over a [FastqReader] built on the line list [src]. *)
Definition fastq_records (fuel : nat) (src : list string) : fq_outcome :=
  match src with
  | [] => FqDone []
  | title :: rest => fastq_loop fuel title rest
  end.

(** The source lines of a failed record: the error [FqLengthMismatch t]
    comes from a title line [tl] of the input whose sequence lines, up to the
    separator, join to a sequence shorter than the quality accumulated by
    the second inner loop. *)
Definition length_mismatch_at (src : list string) (t : string) : Prop :=
  exists pre tl rest0 lines rest qlines quallen rest',
    src = app pre (tl :: rest0)
    /\ first_char_is tl title_token = Some true
    /\ t = rstrip (substring 1 (String.length tl - 1) tl)
    /\ read_seq_lines [] rest0 = ScanSep lines rest
    /\ read_qual_lines (String.length (join lines)) 0 [] rest
       = Some (qlines, quallen, rest')
    /\ String.length (join qlines) = quallen
    /\ String.length (join lines) < quallen.

End Fastq.

(** ** Python values and exceptions shared by the facade layer *)

Inductive pyexc :=
  | TypeError
  | AttributeError
  | IndexError
  | NotImplementedError
  | UnicodeEncodeError
  | NameError (name : string)
  | RuntimeError (msg : string)
  | ValueError (msg : string)
  | KeyError (key : string)
  | FastaParseError (msg : string).

Inductive res (A : Type) :=
  | Ok (a : A)
  | Err (e : pyexc).
Arguments Ok {A} a.
Arguments Err {A} e.

Notation "'let!' x ':=' m 'in' k" :=
  (match m with Ok x => k | Err e => Err e end)
  (at level 200, x pattern, right associativity).

(** A Python [str], [bytes] or [None] held in a read field. *)
Inductive pyval :=
  | PyNone
  | PyStr (s : string)
  | PyBytes (b : string).

Definition pyval_eqb (a b : pyval) : bool :=
  match a, b with
  | PyNone, PyNone => true
  | PyStr x, PyStr y => String.eqb x y
  | PyBytes x, PyBytes y => String.eqb x y
  | _, _ => false
  end.

Definition opt_str_eqb (a b : option string) : bool :=
  match a, b with
  | None, None => true
  | Some x, Some y => String.eqb x y
  | _, _ => false
  end.

(** [len(v)] *)
Definition py_len (v : pyval) : res nat :=
  match v with
  | PyStr s | PyBytes s => Ok (String.length s)
  | PyNone => Err TypeError
  end.

(** [v[::-1]] *)
Definition py_reverse (v : pyval) : res pyval :=
  match v with
  | PyStr s => Ok (PyStr (str_reverse s))
  | PyBytes s => Ok (PyBytes (str_reverse s))
  | PyNone => Err TypeError
  end.

Fixpoint take_while (p : ascii -> bool) (l : list ascii) : list ascii :=
  match l with
  | [] => []
  | c :: t => if p c then c :: take_while p t else []
  end.

(** [s.split(None, 1)] following CPython's [split_whitespace] with
    [maxcount = 1]. *)
Definition split_ws1 (sp : ascii -> bool) (s : string) : list string :=
  let l := drop_while sp (list_ascii_of_string s) in
  match l with
  | [] => []
  | _ =>
      let tok := take_while (fun c => negb (sp c)) l in
      let rest := drop_while sp (drop_while (fun c => negb (sp c)) l) in
      match rest with
      | [] => [string_of_list_ascii tok]
      | _ => [string_of_list_ascii tok; string_of_list_ascii rest]
      end
  end.

(** ** [SeqReadFacade._parse_identifier] *)
Definition parse_identifier (full_title : pyval) : res (pyval * pyval) :=
  let! parts :=
    match full_title with
    | PyNone => Err AttributeError
    | PyStr s => Ok (map PyStr (split_ws1 str_isspace s))
    | PyBytes s => Ok (map PyBytes (split_ws1 bytes_isspace s))
    end in
  match parts with
  | [] => Err IndexError
  | [p0] => Ok (p0, PyStr "")
  | p0 :: p1 :: _ => Ok (p0, p1)
  end.

Definition identifier_of (full_title : pyval) : res pyval :=
  let! p := parse_identifier full_title in Ok (fst p).

Definition description_of (full_title : pyval) : res pyval :=
  let! p := parse_identifier full_title in Ok (snd p).

(** ** In-place facade methods

    A method call is a state transformer on the facade: it ends normally or
    raises, and in both cases the facade keeps the state it had reached. *)
Inductive mres (S : Type) :=
  | Returned (s : S)
  | Raised (e : pyexc) (s : S).
Arguments Returned {S} s.
Arguments Raised {S} e s.

(** [m1(); m2()] *)
Definition mthen {S} (m1 m2 : S -> mres S) (s : S) : mres S :=
  match m1 s with
  | Returned s' => m2 s'
  | Raised e s' => Raised e s'
  end.

Definition triple := (pyval * pyval * pyval)%type.

(** [seqreads.SimpleSeqRead]: [self.read] is a [(title, seq, qual)] tuple;
    [complement] is not implemented, [reverse_complement] is inherited. *)
Module SimpleRead.

Definition t := triple.

Definition reverse (r : t) : mres t :=
  match r with
  | (ti, sq, ql) =>
      match py_reverse sq with
      | Err e => Raised e r
      | Ok sq' =>
          match py_reverse ql with
          | Err e => Raised e r
          | Ok ql' => Returned (ti, sq', ql')
          end
      end
  end.

Definition complement (r : t) : mres t := Raised NotImplementedError r.

(** [SeqReadFacade.reverse_complement]: [self.reverse(); self.complement()] *)
Definition reverse_complement (r : t) : mres t := mthen reverse complement r.

End SimpleRead.


(** The externally owned alignment object, through the capability set the
    facade reads: [qname], [seq], [qual], a [flag]
    bitmask and a [tags] list of [(key, value)] pairs. *)
Record aligned_read := {
  qname : pyval;
  seq : pyval;
  qual : pyval;
  flag : Z;
  tags : list (string * string)
}.


(** ** The read interface used by [group_reads_by_qname] *)
Class ReadFacade (S : Type) := {
  rf_full_title : S -> pyval;
  rf_sequence : S -> pyval;
  rf_flag : S -> Z;
  rf_rg_id : S -> option string;
  (** [type(r)(r.read)]: a new facade of the same class over [r.read] *)
  rf_rewrap : S -> res S
}.

Section FacadeProperties.
Context {S : Type} `{ReadFacade S}.

Definition identifier (r : S) : res pyval := identifier_of (rf_full_title r).
Definition description (r : S) : res pyval := description_of (rf_full_title r).

(** [SeqReadFacade.__len__]: [len(self.sequence)]; also the truth value of
    the facade. *)
Definition facade_len (r : S) : res nat := py_len (rf_sequence r).

End FacadeProperties.

(** [SeqReadFacade.rg_id]: the value of the first tag keyed ["RG"]. *)
Fixpoint find_rg (tgs : list (string * string)) : option string :=
  match tgs with
  | [] => None
  | (k, v) :: rest => if String.eqb k "RG" then Some v else find_rg rest
  end.

#[export] Instance SimpleRead_facade : ReadFacade SimpleRead.t := {
  rf_full_title r := fst (fst r);
  rf_sequence r := snd (fst r);
  rf_flag _ := 4%Z;
  rf_rg_id _ := None;
  rf_rewrap r := Ok r
}.

(** A facade subclass over an [aligned_read] that keeps the inherited
    [SeqReadFacade.__init__] and [rg_id] (reading [qname], [seq], [flag]
    from the backing object); rebuilding it over [r.read] succeeds. *)
Module AlignedFacade.
Record t := { read : aligned_read }.
End AlignedFacade.

#[export] Instance AlignedFacade_facade : ReadFacade AlignedFacade.t := {
  rf_full_title r := qname (AlignedFacade.read r);
  rf_sequence r := seq (AlignedFacade.read r);
  rf_flag r := flag (AlignedFacade.read r);
  rf_rg_id r := find_rg (tags (AlignedFacade.read r));
  rf_rewrap r := Ok r
}.

(** ** [group_reads_by_qname]

    The generator is modelled by the point at which it waits on [next(src)]:
    either skipping non-primary reads while looking for an anchor, or
    accumulating the segments of the current group. *)
Module Grouping.
Section Grouping.
Context {S : Type} `{ReadFacade S}.

Definition group := (option string * list S)%type.

Inductive gstate :=
  | SkipWait
  | AccWait (rg : option string) (id : pyval) (acc : list S).

(** Result of iterating the generator: the groups yielded, and how it ended. *)
Inductive gout :=
  | GDone (gs : list group)
  | GErr (gs : list group) (e : pyexc).

Definition gcons (g : group) (o : gout) : gout :=
  match o with
  | GDone gs => GDone (g :: gs)
  | GErr gs e => GErr (g :: gs) e
  end.

Definition groups_of (o : gout) : list group :=
  match o with GDone gs | GErr gs _ => gs end.

Definition is_secondary (r : S) : bool :=
  negb (Z.eqb (Z.land (rf_flag r) 0x900) 0).

(** One test of [while read1:] with [read1 = r], followed by the body up to
    the next [next(src)]: [None] when the loop ends. *)
Definition anchor (r : S) : res (option gstate) :=
  let! n := facade_len r in
  if n =? 0 then Ok None
  else if is_secondary r then Ok (Some SkipWait)
  else
    let this_rg_id := rf_rg_id r in
    let! this_read_id := identifier r in
    let! r' := rf_rewrap r in
    Ok (Some (AccWait this_rg_id this_read_id [r'])).

Fixpoint go (w : gstate) (src : list S) : gout :=
  match src with
  | [] =>
      match w with
      | SkipWait => GDone []
      | AccWait rg _ acc => GDone [(rg, acc)]
      end
  | r :: rest =>
      match w with
      | SkipWait =>
          match anchor r with
          | Err e => GErr [] e
          | Ok None => GDone []
          | Ok (Some w') => go w' rest
          end
      | AccWait rg id acc =>
          match identifier r with
          | Err e => GErr [] e
          | Ok idn =>
              if negb (pyval_eqb id idn) || negb (opt_str_eqb rg (rf_rg_id r))
              then
                gcons (rg, acc)
                  (match anchor r with
                   | Err e => GErr [] e
                   | Ok None => GDone []
                   | Ok (Some w') => go w' rest
                   end)
              else if is_secondary r then go w rest
              else
                match rf_rewrap r with
                | Err e => GErr [] e
                | Ok r' => go (AccWait rg id (acc ++ [r'])) rest
                end
          end
      end
  end.

Definition group_reads_by_qname (src : list S) : gout :=
  match src with
  | [] => GDone []
  | r :: rest =>
      match anchor r with
      | Err e => GErr [] e
      | Ok None => GDone []
      | Ok (Some w) => go w rest
      end
  end.

(** Every read in an emitted group is the rebuilt copy of a primary read of
    the input. *)
Definition from_primary (src : list S) (r' : S) : Prop :=
  exists r, In r src /\ rf_rewrap r = Ok r' /\ is_secondary r = false.

Definition state_ok (src : list S) (w : gstate) : Prop :=
  match w with
  | SkipWait => True
  | AccWait _ _ acc => forall r', In r' acc -> from_primary src r'
  end.

End Grouping.
End Grouping.

(** ** [ReadSplitter] *)
Module Splitter.
Import Grouping.

(** A header is a mapping; under ["RG"] it lists the declared read groups
    by their ["ID"] fields. *)
Definition header := list (string * list string).

Fixpoint lookup_key (k : string) (h : header) : option (list string) :=
  match h with
  | [] => None
  | (k', v) :: rest => if String.eqb k k' then Some v else lookup_key k rest
  end.

(** [self.rg_set] is [None] or a set that may also hold [None]. *)
Record splitter := {
  rg_set : option (list (option string));
  default_rg : option string
}.

(** [ReadSplitter.__init__] *)
Definition make_splitter (hdr : option header) (default : option string)
  : res splitter :=
  let! _ :=
    match hdr with
    | Some ((_ :: _) as h) =>
        match lookup_key "RG" h with
        | None => Err (ValueError "header needs to provide a 'RG' key")
        | Some _ => Ok tt
        end
    | _ => Ok tt
    end in
  let! set :=
    match hdr with
    | None => Ok None
    | Some h =>
        match lookup_key "RG" h with
        | None => Err (KeyError "RG")
        | Some ids => Ok (Some (map Some ids))
        end
    end in
  match set, default with
  | Some (_ :: _), Some _ =>
      Err (ValueError "cannot use default_rg when read groups are stated explicitly in header")
  | _, _ => Ok {| rg_set := set; default_rg := default |}
  end.

(** [rg_id or self.default_rg] ([""] is false in Python). *)
Definition or_default (rg d : option string) : option string :=
  match rg with
  | Some s => if String.eqb s "" then d else Some s
  | None => d
  end.

Definition set_truthy (s : option (list (option string))) : bool :=
  match s with Some (_ :: _) => true | _ => false end.

Definition set_mem (x : option string) (s : list (option string)) : bool :=
  existsb (opt_str_eqb x) s.

Section Iter.
Context {S : Type} `{ReadFacade S}.

(** The [for] loop over the remaining groups, with the active set. *)
Fixpoint check_rest (set : option (list (option string))) (d : option string)
  (gs : list (@group S)) (tail : @gout S) : @gout S :=
  match gs with
  | [] => tail
  | (rg, rs) :: gs' =>
      let rg' := or_default rg d in
      match set with
      | Some s =>
          if set_truthy set && negb (set_mem rg' s) then
            (* [raise FormatParseError(...)]: the name is not bound in
               [seqreads], so evaluating it raises NameError *)
            GErr [] (NameError "FormatParseError")
          else gcons (rg', rs) (check_rest set d gs' tail)
      | None => gcons (rg', rs) (check_rest set d gs' tail)
      end
  end.

Definition tail_of (o : @gout S) : @gout S :=
  match o with GDone _ => GDone [] | GErr _ e => GErr [] e end.

(** [ReadSplitter.__iter__] over the read list [src]. *)
Definition split_iter (sp : splitter) (src : list S) : @gout S :=
  let o := group_reads_by_qname src in
  match groups_of o with
  | [] =>
      match o with
      | GErr _ e => GErr [] e
      | GDone _ => GErr [] (RuntimeError "No reads in file. Aborting.")
      end
  | (rg, rs) :: gs =>
      if negb (set_truthy (rg_set sp)) then
        match rg_set sp with
        | Some _ =>
            let rg' := or_default rg (default_rg sp) in
            let set := Some [rg'] in
            gcons (rg', rs) (check_rest set (default_rg sp) gs (tail_of o))
        | None =>
            gcons (rg, rs) (check_rest None (default_rg sp) gs (tail_of o))
        end
      else
        (* [elif rg_id not in rg_set]: [rg_set] is not bound in [__iter__] *)
        GErr [] (NameError "rg_set")
  end.

End Iter.
End Splitter.

(** ** [FastaReader] *)
Module Fasta.
Local Open Scope string_scope.

Definition RECORD_SEP : string := ">".

(** [line[:1] == '>'] *)
Definition is_header (line : string) : bool :=
  String.eqb (substring 0 (String.length RECORD_SEP) line) RECORD_SEP.

(** [itertools.groupby(iterable, is_header)] *)
Fixpoint groupby_from (k : bool) (cur : list string) (src : list string)
  : list (bool * list string) :=
  match src with
  | [] => [(k, cur)]
  | l :: rest =>
      if Bool.eqb (is_header l) k then groupby_from k (app cur [l]) rest
      else (k, cur) :: groupby_from (is_header l) [l] rest
  end.

Definition groupby (src : list string) : list (bool * list string) :=
  match src with
  | [] => []
  | l :: rest => groupby_from (is_header l) [l] rest
  end.

(** [h[sep_len:].strip()] *)
Definition header_tail_of (h : string) : string :=
  strip (substring (String.length RECORD_SEP)
           (String.length h - String.length RECORD_SEP) h).

(** [_group_on_separator]: records [(header, content lines)]. *)
Fixpoint group_on_separator_from (header_tail : option string)
  (groups : list (bool * list string)) : list (option string * list string) :=
  match groups with
  | [] => []
  | (true, item) :: gs =>
      let tails := map header_tail_of item in
      app (map (fun h => (Some h, [])) (removelast tails))
        (group_on_separator_from (Some (last tails "")) gs)
  | (false, item) :: gs =>
      (header_tail, item) :: group_on_separator_from header_tail gs
  end.

Definition group_on_separator (src : list string)
  : list (option string * list string) :=
  group_on_separator_from None (groupby src).

(** [_parse_sequence_line]: [raw_seq.strip().replace(' ', '')] *)
Definition parse_sequence_line (raw : string) : string :=
  string_of_list_ascii
    (filter (fun c => negb (Ascii.eqb c " "))
       (list_ascii_of_string (strip raw))).

(** [FastaReader.__iter__]: records with their parsed sequence lines.
    A [StopIteration] from the first [next(self.i)] inside the generator
    surfaces as [RuntimeError].  The double quotes around [>] in the
    [FastaParseError] message are written here as single quotes. *)
Definition records (src : list string) : res (list (string * list string)) :=
  let recs := group_on_separator src in
  match recs with
  | [] => Err (RuntimeError "generator raised StopIteration")
  | (None, _) :: _ =>
      Err (FastaParseError
             "Input does not seem to be in fasta format (expected '>' as first character).")
  | _ =>
      Ok (map (fun p => (match fst p with Some h => h | None => "" end,
                         map parse_sequence_line (snd p))) recs)
  end.

(** [seqline.upper().encode('ascii')] for a code point below 256:
    only [a-z] change case within ASCII, U+00DF becomes ["SS"], and every
    other code point from 128 upwards stays outside ASCII. *)
Definition upper_encode_char (c : ascii) : option string :=
  let n := nat_of_ascii c in
  if Nat.leb 97 n && Nat.leb n 122 then Some (String (ascii_of_nat (n - 32)) "")
  else if Nat.ltb n 128 then Some (String c "")
  else if Nat.eqb n 223 then Some "SS"
  else None.

Fixpoint upper_encode (s : string) : res string :=
  match s with
  | EmptyString => Ok ""
  | String c rest =>
      match upper_encode_char c with
      | None => Err UnicodeEncodeError
      | Some u => let! r := upper_encode rest in Ok (u ++ r)
      end
  end.

(** [hashlib.md5()] is kept opaque: the object is the byte string fed to
    it so far, and [hexdigest()] names the digest of that data. *)
Inductive hexdigest := md5_hexdigest (data : string).

Fixpoint md5_feed (acc : string) (lines : list string) : res string :=
  match lines with
  | [] => Ok acc
  | l :: rest => let! b := upper_encode l in md5_feed (acc ++ b) rest
  end.

(** Loop body of [md5sums] for one record: the sentinel [seqline = None]
    survives only when the record has no content line. *)
Definition md5sum_record (header : string) (lines : list string)
  : res (string * option hexdigest) :=
  let! data := md5_feed "" lines in
  match lines with
  | [] => Ok (header, None)
  | _ => Ok (header, Some (md5_hexdigest data))
  end.

(** Loop body of [describe_records] for one record. *)
Definition describe_record (header : string) (lines : list string)
  : res (string * nat * option hexdigest) :=
  let seqlen := fold_left (fun n l => n + String.length l) lines 0 in
  let! data := md5_feed "" lines in
  if Nat.eqb seqlen 0 then Ok (header, seqlen, None)
  else Ok (header, seqlen, Some (md5_hexdigest data)).

Fixpoint map_res {A B} (f : A -> res B) (l : list A) : res (list B) :=
  match l with
  | [] => Ok []
  | x :: t => let! y := f x in let! ys := map_res f t in Ok (y :: ys)
  end.

(** [list(FastaReader(src).md5sums())] and
    [list(FastaReader(src).describe_records())]. *)
Definition md5sums (src : list string) : res (list (string * option hexdigest)) :=
  let! recs := records src in
  map_res (fun p => md5sum_record (fst p) (snd p)) recs.

Definition describe_records (src : list string)
  : res (list (string * nat * option hexdigest)) :=
  let! recs := records src in
  map_res (fun p => describe_record (fst p) (snd p)) recs.

(** [''.join(seq_iter)] of a record: its concatenated sequence. *)
Definition concat_seq (lines : list string) : string := String.concat "" lines.

End Fasta.

(** ** [fasta] identifier sanitizing *)
Module Sanitize.
Local Open Scope string_scope.

Definition UNSAFE_ID_CHARS : string := "<>[]*;=,".

(** [is_safe_char]: [32 < ord(c) < 127 and c not in _UNSAFE_CHARSET] *)
Definition is_safe_char (c : ascii) : bool :=
  let n := nat_of_ascii c in
  Nat.ltb 32 n && Nat.ltb n 127
  && negb (existsb (Ascii.eqb c) (list_ascii_of_string UNSAFE_ID_CHARS)).

(** [is_safe_id]: [all(is_safe_char(c) for c in identifier)] *)
Definition is_safe_id (identifier : string) : bool :=
  forallb is_safe_char (list_ascii_of_string identifier).

(** [c.encode('utf-8')] for a code point below 256. *)
Definition utf8_encode (c : ascii) : list nat :=
  let n := nat_of_ascii c in
  if Nat.ltb n 128 then [n] else [192 + n / 64; 128 + n mod 64].

Definition hex_digit (d : nat) : ascii :=
  if Nat.ltb d 10 then ascii_of_nat (48 + d) else ascii_of_nat (55 + d).

(** [hex(byte_val)[2:].upper().zfill(2)] for a byte value. *)
Definition hex2 (b : nat) : string :=
  String (hex_digit (b / 16)) (String (hex_digit (b mod 16)) "").

(** The pieces appended for one unsafe character in percent mode. *)
Definition percent_pieces (c : ascii) : list string :=
  flat_map (fun b => ["%"; hex2 b]) (utf8_encode c).

(** [get_sanitized_id(identifier, replacement_str)]: the list
    [amended_chars] joined with ['']; [replacement_str] is used when it is
    true in Python, i.e. not [None] and not empty. *)
Definition amended_for (replacement_str : option string) (c : ascii)
  : list string :=
  if is_safe_char c then [String c ""]
  else match replacement_str with
       | Some r => if String.eqb r "" then percent_pieces c else [r]
       | None => percent_pieces c
       end.

Definition get_sanitized_id (identifier : string)
  (replacement_str : option string) : string :=
  String.concat ""
    (flat_map (amended_for replacement_str) (list_ascii_of_string identifier)).

End Sanitize.

(** ** Alphabet-checked FASTA readers *)
Module FastaAlphabet.
Local Open Scope string_scope.

(** [FastaNucleotideReader]: ['ACGTNKSYMWRBDHV'] and its lower case. *)
Definition nucleotide_alphabet : string :=
  "ACGTNKSYMWRBDHV" ++ lower "ACGTNKSYMWRBDHV".

Definition in_alphabet (alphabet : string) (c : ascii) : bool :=
  existsb (Ascii.eqb c) (list_ascii_of_string alphabet).

(** The [for c in seq] check of [FastaWithAlphabetReader._parse_sequence_line]:
    the first character outside the alphabet. *)
Fixpoint first_invalid (alphabet : string) (l : list ascii) : option ascii :=
  match l with
  | [] => None
  | c :: rest =>
      if in_alphabet alphabet c then first_invalid alphabet rest else Some c
  end.

(** [FastaParseError('Invalid letter in sequence.', c)] with the arguments
    [header, n] added by [_get_parsed_seqlines]. *)
Inductive invalid_letter := InvalidLetter (c : ascii) (header : string) (n : nat).

(** Draining [_get_parsed_seqlines(header, seq_iter)] of an alphabet-checked
    reader; [n] is the [enumerate(seq_iter, 1)] counter. *)
Fixpoint checked_seqlines (alphabet header : string) (n : nat)
  (lines : list string) : list string + invalid_letter :=
  match lines with
  | [] => inl []
  | l :: rest =>
      let p := Fasta.parse_sequence_line l in
      match first_invalid alphabet (list_ascii_of_string p) with
      | Some c => inr (InvalidLetter c header n)
      | None =>
          match checked_seqlines alphabet header (S n) rest with
          | inl ps => inl (p :: ps)
          | inr e => inr e
          end
      end
  end.

End FastaAlphabet.

(** ** More [FastaReader] aggregations *)
Module FastaViews.
Import Fasta.
Local Open Scope string_scope.

(** [list(FastaReader(src).identifiers())] *)
Definition identifiers (src : list string) : res (list string) :=
  let! recs := records src in Ok (map fst recs).

(** [list(FastaReader(src).sequences())] *)
Definition sequences (src : list string) : res (list (string * string)) :=
  let! recs := records src in
  Ok (map (fun p => (fst p, concat_seq (snd p))) recs).

(** [list(FastaReader(src).seqlens())] *)
Definition seqlens (src : list string) : res (list (string * nat)) :=
  let! recs := records src in
  Ok (map (fun p => (fst p, fold_left (fun n l => n + String.length l) (snd p) 0))
        recs).

(** The last line of the input is not a header line (true of the empty
    input). *)
Definition ends_with_content (src : list string) : bool :=
  negb (last (map is_header src) false).

End FastaViews.

(** ** The four-line FASTQ layout read by [FastqReader] *)
Module FastqLayout.
Local Open Scope string_scope.

(** [@title], sequence, [+], quality: one line each. *)
Definition lines_of_record (r : Fastq.record) : list string :=
  match r with
  | (t, s, q) => ["@" ++ t; s; "+"; q]
  end.

Definition lines_of (recs : list Fastq.record) : list string :=
  flat_map lines_of_record recs.

(** What the layout needs for each record: title, sequence and quality
    without trailing whitespace, a non-empty sequence whose first character
    is not [+], and a quality as long as the sequence. *)
Definition well_formed (r : Fastq.record) : bool :=
  match r with
  | (t, s, q) =>
      String.eqb (rstrip t) t && String.eqb (rstrip s) s
      && String.eqb (rstrip q) q
      && match s with
         | EmptyString => false
         | String c _ => negb (Ascii.eqb c Fastq.sep_token)
         end
      && Nat.eqb (String.length q) (String.length s)
  end.

(** The records yielded before the iteration ended, however it ended. *)
Definition yielded (o : Fastq.fq_outcome) : list Fastq.record :=
  match o with
  | Fastq.FqDone rs | Fastq.FqFailed rs _ | Fastq.FqOutOfFuel rs => rs
  end.

End FastqLayout.

(** ** Objects yielded by [FastqReader.__iter__]

    The reader owns one facade object, [self.robject], created in
    [__init__]; iteration stores each record into its [read] attribute and
    yields the object itself.  Objects live in a store mapping an address to
    the object's [read] tuple. *)
Module FastqObjects.

Definition store := nat -> triple.

(** [obj.read = v] for the object at address [a]. *)
Definition set_read (h : store) (a : nat) (v : triple) : store :=
  fun b => if Nat.eqb a b then v else h b.

Definition record_value (r : Fastq.record) : triple :=
  match r with (t, s, q) => (PyStr t, PyStr s, PyStr q) end.

(** [list(reader)] over the records [recs] produced by the parser, with
    [self.robject] at address [robject]: the references collected and the
    store afterwards. *)
Fixpoint iter_objects (robject : nat) (h : store) (recs : list Fastq.record)
  : list nat * store :=
  match recs with
  | [] => ([], h)
  | r :: rs =>
      let h' := set_read h robject (record_value r) in
      let '(refs, h'') := iter_objects robject h' rs in
      (robject :: refs, h'')
  end.

End FastqObjects.

(** ** Concrete inputs used by the properties below *)
Module Inputs.
Local Open Scope string_scope.

Definition DNA_SYMBOLS : string := SeqTransform.IUPAC_DNA ++ lower SeqTransform.IUPAC_DNA.

Definition RNA_SYMBOLS : string := SeqTransform.IUPAC_RNA ++ lower SeqTransform.IUPAC_RNA.

Definition r1_ok : list string := ["@r1"; "ACGT"; "+"; "!!!!"].

Definition r1_short : list string := ["@r1"; "ACGT"; "+"; "!!!"].

Definition r1_long : list string := ["@r1"; "ACGT"; "+"; "!!!!!"].

Definition blank_line : string := String LF "".

Definition two_records_blank : list string :=
  ["@r1"; "ACGT"; "+"; "!!!!"; blank_line; "@r2"; "AC"; "+"; "!!"].

Definition aread (id : string) (fl : Z) (rg : string) (sq : string)
  : AlignedFacade.t :=
  {| AlignedFacade.read :=
       {| qname := PyStr id; seq := PyStr sq; qual := PyStr sq;
          flag := fl; tags := [("RG", rg)] |} |}.

Definition no_seq_read (id : string) : AlignedFacade.t :=
  {| AlignedFacade.read :=
       {| qname := PyStr id; seq := PyNone; qual := PyNone;
          flag := 0; tags := [("RG", "X")] |} |}.

Definition hdr_AB : Splitter.header := [("RG", ["A"; "B"])].

Definition sp_AB : Splitter.splitter :=
  {| Splitter.rg_set := Some [Some "A"; Some "B"]; Splitter.default_rg := None |}.

Definition blank_record_src : list string := [">h"; String LF ""; ">g"; "ac"].

Definition fasta_src : list string :=
  [">a desc"; "ac gt"; ""; ">b"; ">c"; "GG"; " t "].

Definition fasta_src_recs : list (string * list string) :=
  [("a desc", ["acgt"; ""]); ("b", []); ("c", ["GG"; "t"])].

Definition fasta_src_described : list (string * nat * option Fasta.hexdigest) :=
  [("a desc", 4, Some (Fasta.md5_hexdigest "ACGT")); ("b", 0, None);
   ("c", 3, Some (Fasta.md5_hexdigest "GGT"))].

Definition fq_two_recs : list Fastq.record :=
  [("r1", "ACGT", "!!!!"); ("r2 lane:1", "AC", "#!")].

End Inputs.

(** * Properties *)

(** ** Strings as character lists *)
Module StringFacts.
Local Open Scope string_scope.

Lemma length_list_ascii (s : string) :
  String.length s = length (list_ascii_of_string s).
Proof. induction s as [|c s IH]; simpl; [reflexivity|rewrite IH; reflexivity]. Qed.

Lemma list_ascii_append (s1 s2 : string) :
  list_ascii_of_string (s1 ++ s2)
  = app (list_ascii_of_string s1) (list_ascii_of_string s2).
Proof. induction s1 as [|c s1 IH]; simpl; [reflexivity|rewrite IH; reflexivity]. Qed.

Lemma list_ascii_concat_empty (l : list string) :
  list_ascii_of_string (String.concat "" l)
  = concat (map list_ascii_of_string l).
Proof.
  induction l as [|x l IH]; [reflexivity|].
  destruct l as [|y l].
  - simpl; rewrite app_nil_r; reflexivity.
  - change (String.concat "" (x :: y :: l)) with (x ++ "" ++ String.concat "" (y :: l)).
    rewrite list_ascii_append; change ("" ++ ?t) with t; rewrite IH.
    reflexivity.
Qed.

Lemma length_concat_empty (l : list string) :
  String.length (String.concat "" l)
  = fold_right (fun s n => String.length s + n) 0 l.
Proof.
  rewrite length_list_ascii, list_ascii_concat_empty.
  induction l as [|x l IH]; simpl; [reflexivity|].
  rewrite length_app, IH, <- length_list_ascii; reflexivity.
Qed.

Lemma list_ascii_str_map (f : ascii -> ascii) (s : string) :
  list_ascii_of_string (str_map f s) = map f (list_ascii_of_string s).
Proof. induction s as [|c s IH]; simpl; [reflexivity|rewrite IH; reflexivity]. Qed.

Lemma str_map_of_list (f : ascii -> ascii) (l : list ascii) :
  str_map f (string_of_list_ascii l) = string_of_list_ascii (map f l).
Proof. induction l as [|c l IH]; simpl; [reflexivity|rewrite IH; reflexivity]. Qed.

Lemma str_map_reverse (f : ascii -> ascii) (s : string) :
  str_map f (str_reverse s) = str_reverse (str_map f s).
Proof.
  unfold str_reverse; rewrite str_map_of_list, list_ascii_str_map, map_rev.
  reflexivity.
Qed.

Lemma str_reverse_involutive (s : string) : str_reverse (str_reverse s) = s.
Proof.
  unfold str_reverse; rewrite list_ascii_of_string_of_list_ascii, rev_involutive.
  apply string_of_list_ascii_of_string.
Qed.

Lemma substring_0_length (s : string) : substring 0 (String.length s) s = s.
Proof. induction s as [|c s IH]; simpl; [reflexivity|rewrite IH; reflexivity]. Qed.

End StringFacts.

(** ** Consumption of the source by the FASTQ inner loops *)
Module FastqFacts.
Import Fastq StringFacts.
Local Open Scope string_scope.

Lemma length_join_snoc (acc : list string) (l : string) :
  String.length (join (app acc [l])) = String.length (join acc) + String.length l.
Proof.
  unfold join; rewrite !length_concat_empty, fold_right_app; simpl.
  induction acc as [|x acc IH]; simpl; [lia|rewrite IH; lia].
Qed.

Lemma read_qual_lines_length (seqlen : nat) (src : list string) :
  forall quallen acc qlines n rest,
  read_qual_lines seqlen quallen acc src = Some (qlines, n, rest) ->
  String.length (join acc) = quallen ->
  String.length (join qlines) = n /\ seqlen <= n.
Proof.
  induction src as [|l src IH]; intros quallen acc qlines n rest Hr Hacc; simpl in Hr.
  - destruct (Nat.ltb quallen seqlen) eqn:E; [discriminate|].
    inversion Hr; subst; apply Nat.ltb_ge in E; auto.
  - destruct (Nat.ltb quallen seqlen) eqn:E.
    + eapply IH; [exact Hr|]. rewrite length_join_snoc, Hacc; reflexivity.
    + inversion Hr; subst; apply Nat.ltb_ge in E; auto.
Qed.

Lemma read_seq_lines_suffix (src : list string) :
  forall acc lines rest,
  read_seq_lines acc src = ScanSep lines rest -> exists mid, src = app mid rest.
Proof.
  induction src as [|l src IH]; intros acc lines rest H; simpl in H; [discriminate|].
  destruct (first_char_is l sep_token) as [[|]|]; [| |discriminate].
  - inversion H; subst; exists [l]; reflexivity.
  - destruct (IH _ _ _ H) as [mid ->]; exists (l :: mid); reflexivity.
Qed.

Lemma read_qual_lines_suffix (seqlen : nat) (src : list string) :
  forall quallen acc qlines n rest,
  read_qual_lines seqlen quallen acc src = Some (qlines, n, rest) ->
  exists mid, src = app mid rest.
Proof.
  induction src as [|l src IH]; intros quallen acc qlines n rest H; simpl in H.
  - destruct (Nat.ltb quallen seqlen); [discriminate|].
    inversion H; subst; exists []; reflexivity.
  - destruct (Nat.ltb quallen seqlen).
    + destruct (IH _ _ _ _ _ H) as [mid ->]; exists (l :: mid); reflexivity.
    + inversion H; subst; exists []; reflexivity.
Qed.

Lemma fq_cons_failed (r : record) (o : fq_outcome) (recs : list record) (e : fq_error) :
  fq_cons r o = FqFailed recs e -> exists recs', o = FqFailed recs' e.
Proof. destruct o; simpl; intros H; inversion H; subst; eauto. Qed.

End FastqFacts.


(** ** Sequence transforms *)
Module SeqTransformProps.
Import SeqTransform.
Import Inputs.
Local Open Scope string_scope.


Lemma dna_char_involutive (c : ascii) :
  translate_char DNA_TRANSLATION_TABLE
    (translate_char DNA_TRANSLATION_TABLE c) = c.
Proof. destruct c as [[] [] [] [] [] [] [] []]; vm_compute; reflexivity. Qed.

Lemma rna_char_involutive (c : ascii) :
  translate_char RNA_TRANSLATION_TABLE
    (translate_char RNA_TRANSLATION_TABLE c) = c.
Proof. destruct c as [[] [] [] [] [] [] [] []]; vm_compute; reflexivity. Qed.

Lemma dna_char_unmapped (c : ascii) :
  In c (list_ascii_of_string DNA_SYMBOLS)
  \/ translate_char DNA_TRANSLATION_TABLE c = c.
Proof.
  destruct c as [[] [] [] [] [] [] [] []];
    first [right; vm_compute; reflexivity | left; vm_compute; tauto].
Qed.

Lemma rna_char_unmapped (c : ascii) :
  In c (list_ascii_of_string RNA_SYMBOLS)
  \/ translate_char RNA_TRANSLATION_TABLE c = c.
Proof.
  destruct c as [[] [] [] [] [] [] [] []];
    first [right; vm_compute; reflexivity | left; vm_compute; tauto].
Qed.

Lemma str_map_involutive (f : ascii -> ascii) :
  (forall c, f (f c) = c) -> forall s, str_map f (str_map f s) = s.
Proof.
  intros Hf s; induction s as [|c s IH]; simpl; [reflexivity|].
  rewrite Hf, IH; reflexivity.
Qed.

Lemma str_map_id (f : ascii -> ascii) (s : string) :
  (forall c, In c (list_ascii_of_string s) -> f c = c) -> str_map f s = s.
Proof.
  induction s as [|c s IH]; simpl; intros Hf; [reflexivity|].
  rewrite Hf by (left; reflexivity).
  rewrite IH by (intros x Hx; apply Hf; right; exact Hx); reflexivity.
Qed.

(** C2: [complement] is an involution for both tables, on every string
    (in particular on IUPAC sequences in either case); ['N'] and ['n'] are
    their own complements, and every symbol outside a table's alphabet is
    passed through unchanged. *)
Theorem complement_involutive :
  (forall (is_dna : bool) (s : string),
      complement (complement s is_dna) is_dna = s)
  /\ complement "N" true = "N" /\ complement "n" true = "n"
  /\ complement "N" false = "N" /\ complement "n" false = "n"
  /\ (forall c, In c (list_ascii_of_string DNA_SYMBOLS)
                \/ complement (String c "") true = String c "")
  /\ (forall c, In c (list_ascii_of_string RNA_SYMBOLS)
                \/ complement (String c "") false = String c "").
Proof.
  split; [|split; [reflexivity|split; [reflexivity|split; [reflexivity|
    split; [reflexivity|split]]]]].
  - intros [|] s; unfold complement, translate; apply str_map_involutive.
    + exact dna_char_involutive.
    + exact rna_char_involutive.
  - intros c; destruct (dna_char_unmapped c) as [Hin|Heq]; [left; exact Hin|].
    right; unfold complement, translate; simpl; rewrite Heq; reflexivity.
  - intros c; destruct (rna_char_unmapped c) as [Hin|Heq]; [left; exact Hin|].
    right; unfold complement, translate; simpl; rewrite Heq; reflexivity.
Qed.

End SeqTransformProps.

(** ** FASTQ parsing *)
Module FastqProps.
Import Fastq FastqFacts.
Import Inputs.
Local Open Scope string_scope.


(** No amount of fuel makes the 3-character quality a length mismatch. *)
Lemma r1_short_never_length_mismatch :
  forall fuel recs t,
    fastq_records fuel r1_short <> FqFailed recs (FqLengthMismatch t).
Proof. intros [|fuel] recs t; vm_compute; discriminate. Qed.

(** C1 (as stated): the 3-character quality fails with a length-mismatch
    error.  It does not: the quality loop runs out of input first and the
    parser reports an incomplete record. *)
Lemma r1_short_no_length_mismatch :
  fastq_records 4 r1_short = FqFailed [] (FqIncomplete "r1")
  /\ FqIncomplete "r1" <> FqLengthMismatch "r1".
Proof. split; [vm_compute; reflexivity|discriminate]. Qed.

Lemma fastq_loop_length_mismatch (fuel : nat) :
  forall title src recs t,
  fastq_loop fuel title src = FqFailed recs (FqLengthMismatch t) ->
  length_mismatch_at (title :: src) t.
Proof.
  induction fuel as [|fuel IH]; intros title src recs t H; simpl in H;
    [discriminate|].
  destruct (first_char_is title title_token) as [[|]|] eqn:Ef;
    [|destruct (String.eqb (rstrip title) ""); [eapply IH; exact H|discriminate]
    |discriminate].
  destruct (read_seq_lines [] src) as [| |lines rest] eqn:Es; try discriminate.
  destruct (Nat.eqb (String.length (join lines)) 0); [discriminate|].
  destruct (read_qual_lines (String.length (join lines)) 0 [] rest)
    as [[[qlines n] rest']|] eqn:Eq; [|discriminate].
  destruct (read_qual_lines_length _ _ _ _ _ _ _ Eq eq_refl) as [Hn _].
  destruct (Nat.ltb (String.length (join lines)) n) eqn:Elt.
  - inversion H; subst.
    exists [], title, src, lines, rest, qlines, (String.length (join qlines)), rest'.
    apply Nat.ltb_lt in Elt; repeat split; auto.
  - destruct rest' as [|title' rest'']; [discriminate|].
    destruct (fq_cons_failed _ _ _ _ H) as [recs' H'].
    destruct (IH _ _ _ _ H')
      as (pre & tl & rest0 & lines' & r1 & ql' & n' & r2 & Hsrc & Hrest).
    destruct (read_seq_lines_suffix _ _ _ _ Es) as [mid1 Hm1].
    destruct (read_qual_lines_suffix _ _ _ _ _ _ _ Eq) as [mid2 Hm2].
    exists (title :: app mid1 (app mid2 pre)), tl, rest0, lines', r1, ql', n', r2.
    split; [|exact Hrest].
    rewrite Hm1, Hm2, Hsrc; simpl; rewrite <- !app_assoc; reflexivity.
Qed.

(** C1 (amended): ["@r1","ACGT","+","!!!!"] yields exactly
    [("r1","ACGT","!!!!")]; with the quality ["!!!"] the parser fails with
    the incomplete-record error; with ["!!!!!"] it fails with the
    length-mismatch error.  In general, a length-mismatch failure only ever
    comes from a record of the input whose accumulated quality is longer
    than its sequence. *)
Theorem fastq_r1_records :
  (forall fuel, 1 <= fuel ->
    fastq_records fuel r1_ok = FqDone [("r1", "ACGT", "!!!!")]
    /\ fastq_records fuel r1_short = FqFailed [] (FqIncomplete "r1")
    /\ fastq_records fuel r1_long = FqFailed [] (FqLengthMismatch "r1"))
  /\ (forall fuel src recs t,
        fastq_records fuel src = FqFailed recs (FqLengthMismatch t) ->
        length_mismatch_at src t).
Proof.
  split.
  - intros [|fuel] Hf; [lia|].
    split; [|split]; vm_compute; reflexivity.
  - intros fuel [|title rest] recs t H; [discriminate|].
    exact (fastq_loop_length_mismatch fuel title rest recs t H).
Qed.

Lemma fastq_r1_records_witness :
  (1 <= 1 /\ fastq_records 1 r1_ok = FqDone [("r1", "ACGT", "!!!!")])
  /\ (fastq_records 1 r1_long = FqFailed [] (FqLengthMismatch "r1")
      /\ length_mismatch_at r1_long "r1").
Proof.
  split.
  - split; [lia|]. apply (proj1 fastq_r1_records 1); lia.
  - assert (E : fastq_records 1 r1_long = FqFailed [] (FqLengthMismatch "r1"))
      by (vm_compute; reflexivity).
    split; [exact E|].
    exact (proj2 fastq_r1_records 1 r1_long [] "r1" E).
Defined.


(** A blank title line is never replaced: each turn of the main loop
    [continue]s with the same [title]. *)
Lemma blank_title_loops :
  forall fuel rest, fastq_loop fuel blank_line rest = FqOutOfFuel [].
Proof.
  induction fuel as [|fuel IH]; intros rest; [reflexivity|].
  simpl fastq_loop; vm_compute first_char_is; vm_compute String.eqb.
  apply IH.
Qed.


(** C4: with one blank line between two records the parser yields the first
    record and then never finishes: for every amount of fuel the main loop
    is still running, and the second record is never produced. *)
Theorem blank_line_between_records_diverges :
  forall fuel,
    fastq_records fuel two_records_blank
    = FqOutOfFuel (match fuel with 0 => [] | S _ => [("r1", "ACGT", "!!!!")] end).
Proof.
  intros [|fuel]; [reflexivity|].
  unfold two_records_blank, fastq_records.
  simpl fastq_loop. vm_compute read_seq_lines.
  change (fq_cons ("r1", "ACGT", "!!!!") (fastq_loop fuel blank_line
           ["@r2"; "AC"; "+"; "!!"])
          = FqOutOfFuel [("r1", "ACGT", "!!!!")]).
  rewrite blank_title_loops; reflexivity.
Qed.

End FastqProps.

(** ** Facade methods *)
Module FacadeProps.
Import Inputs.
Local Open Scope string_scope.

(** C3 (as stated): on the tuple-backed [seqreads.SimpleSeqRead] over
    [("r1", "AC", "!#")], [reverse_complement()] does not leave the sequence
    reverse-complemented (["GT"]): it reverses sequence and quality and then
    raises [NotImplementedError] from [complement()]. *)
Lemma simple_read_sequence_not_complemented :
  SimpleRead.reverse_complement (PyStr "r1", PyStr "AC", PyStr "!#")
  = Raised NotImplementedError (PyStr "r1", PyStr "CA", PyStr "#!")
  /\ SeqTransform.reverse_complement "AC" true = "GT"
  /\ PyStr "CA" <> PyStr "GT".
Proof. split; [vm_compute; reflexivity|split; [vm_compute; reflexivity|discriminate]]. Qed.

(** C3 (amended): for the tuple-backed [seqreads.SimpleSeqRead],
    [reverse_complement()] behaves on every read exactly as [reverse()]
    followed by [complement()]; on a read holding a sequence and a quality
    both calls reverse the two fields and then raise [NotImplementedError],
    leaving the read with sequence and quality reversed. *)
Theorem simple_reverse_complement_composed :
  (forall r : SimpleRead.t,
     SimpleRead.reverse_complement r
     = mthen SimpleRead.reverse SimpleRead.complement r)
  /\ (forall ti sq ql sq' ql' : pyval,
        py_reverse sq = Ok sq' -> py_reverse ql = Ok ql' ->
        SimpleRead.reverse_complement (ti, sq, ql)
        = Raised NotImplementedError (ti, sq', ql')
        /\ mthen SimpleRead.reverse SimpleRead.complement (ti, sq, ql)
           = Raised NotImplementedError (ti, sq', ql')).
Proof.
  split; [intros r; reflexivity|].
  intros ti sq ql sq' ql' Hs Hq.
  unfold SimpleRead.reverse_complement, mthen, SimpleRead.reverse.
  rewrite Hs, Hq; split; reflexivity.
Qed.

Lemma simple_reverse_complement_composed_witness :
  py_reverse (PyStr "AC") = Ok (PyStr "CA")
  /\ py_reverse (PyStr "!#") = Ok (PyStr "#!")
  /\ SimpleRead.reverse_complement (PyStr "r1", PyStr "AC", PyStr "!#")
     = Raised NotImplementedError (PyStr "r1", PyStr "CA", PyStr "#!").
Proof.
  split; [vm_compute; reflexivity|split; [vm_compute; reflexivity|]].
  apply (proj2 simple_reverse_complement_composed
           (PyStr "r1") (PyStr "AC") (PyStr "!#") (PyStr "CA") (PyStr "#!"));
    vm_compute; reflexivity.
Defined.

End FacadeProps.

(** ** Identifier and description *)
Module IdentifierProps.
Local Open Scope string_scope.

Lemma drop_while_none (p : ascii -> bool) (l : list ascii) :
  forallb (fun c => negb (p c)) l = true -> drop_while p l = l.
Proof.
  destruct l as [|c l]; simpl; [reflexivity|].
  intros Hl; apply andb_true_iff in Hl as [Hc _].
  destruct (p c); [discriminate|reflexivity].
Qed.

Lemma drop_while_all (p : ascii -> bool) (l : list ascii) :
  forallb p l = true -> drop_while p l = [].
Proof.
  induction l as [|c l IH]; simpl; [reflexivity|].
  intros Hl; apply andb_true_iff in Hl as [Hc Hl]; rewrite Hc; auto.
Qed.

Lemma take_while_all (p : ascii -> bool) (l : list ascii) :
  forallb p l = true -> take_while p l = l.
Proof.
  induction l as [|c l IH]; simpl; [reflexivity|].
  intros Hl; apply andb_true_iff in Hl as [Hc Hl]; rewrite Hc, IH; auto.
Qed.

(** A non-empty text title without whitespace is its own identifier, with
    the empty [str] as description. *)
Lemma str_title_without_space (s : string) :
  s <> "" ->
  forallb (fun c => negb (str_isspace c)) (list_ascii_of_string s) = true ->
  parse_identifier (PyStr s) = Ok (PyStr s, PyStr "").
Proof.
  intros Hne Hns.
  unfold parse_identifier, split_ws1.
  rewrite (drop_while_none _ _ Hns).
  destruct (list_ascii_of_string s) as [|c l] eqn:Hl.
  - exfalso; apply Hne.
    rewrite <- (string_of_list_ascii_of_string s), Hl; reflexivity.
  - cbv beta iota zeta.
    rewrite (take_while_all _ _ Hns), (drop_while_all _ _ Hns).
    cbn [drop_while map]. rewrite <- Hl, string_of_list_ascii_of_string.
    reflexivity.
Qed.

(** C9: a [bytes] title without whitespace gets the [str] [''] as
    description, not [b'']; the empty title, which has no whitespace
    either, raises [IndexError] instead of giving its own identifier. *)
Theorem bytes_title_description_is_str :
  parse_identifier (PyBytes "r1") = Ok (PyBytes "r1", PyStr "")
  /\ description_of (PyBytes "r1") = Ok (PyStr "")
  /\ description_of (PyBytes "r1") <> Ok (PyBytes "")
  /\ parse_identifier (PyStr "") = Err IndexError
  /\ parse_identifier (PyBytes "") = Err IndexError.
Proof.
  repeat split; try (vm_compute; reflexivity).
  vm_compute; discriminate.
Qed.

End IdentifierProps.

(** ** Grouping reads by template *)
Module GroupingProps.
Import Grouping.
Import Inputs.
Local Open Scope string_scope.

Section Props.
Context {R : Type} `{ReadFacade R}.

Lemma groups_of_gcons (g : group) (o : @gout R) :
  groups_of (gcons g o) = g :: groups_of o.
Proof. destruct o; reflexivity. Qed.

(** An anchor is either the start of a skip or a primary read rebuilt by
    [type(r)(r.read)]. *)
Lemma anchor_cases (r : R) (w : @gstate R) :
  anchor r = Ok (Some w) ->
  w = SkipWait
  \/ exists rg id r', w = AccWait rg id [r'] /\ rf_rewrap r = Ok r'
                      /\ is_secondary r = false.
Proof.
  unfold anchor.
  destruct (facade_len r) as [n|e]; [|discriminate].
  destruct (Nat.eqb n 0); [discriminate|].
  destruct (is_secondary r) eqn:Hs; [intros Hw; inversion Hw; auto|].
  destruct (identifier r) as [id|e]; [|discriminate].
  destruct (rf_rewrap r) as [r'|e] eqn:Hr; [|discriminate].
  intros Hw; inversion Hw; subst; right.
  exists (rf_rg_id r), id, r'; auto.
Qed.


Lemma anchor_ok (src : list R) (r : R) (w : @gstate R) :
  In r src -> anchor r = Ok (Some w) -> state_ok src w.
Proof.
  intros Hin Ha; destruct (anchor_cases r w Ha) as [->|(rg & id & r' & -> & Hr & Hs)];
    simpl; [exact I|].
  intros x [<-|[]]; exists r; auto.
Qed.

Lemma go_from_primary (src0 : list R) :
  forall src w, (forall r, In r src -> In r src0) -> state_ok src0 w ->
  forall g, In g (groups_of (go w src)) ->
  forall r', In r' (snd g) -> from_primary src0 r'.
Proof.
  induction src as [|r rest IH]; intros w Hsub Hw g Hg r' Hr'.
  - destruct w as [|rg id acc]; simpl in Hg; [contradiction|].
    destruct Hg as [<-|[]]; exact (Hw r' Hr').
  - assert (Hsub' : forall x, In x rest -> In x src0)
      by (intros x Hx; apply Hsub; right; exact Hx).
    assert (Hr0 : In r src0) by (apply Hsub; left; reflexivity).
    destruct w as [|rg id acc]; simpl in Hg.
    + destruct (anchor r) as [[w'|]|e] eqn:Ha; simpl in Hg; try contradiction.
      exact (IH w' Hsub' (anchor_ok src0 r w' Hr0 Ha) g Hg r' Hr').
    + destruct (identifier r) as [idn|e]; simpl in Hg; [|contradiction].
      destruct (negb (pyval_eqb id idn) || negb (opt_str_eqb rg (rf_rg_id r))).
      * rewrite groups_of_gcons in Hg; destruct Hg as [<-|Hg]; [exact (Hw r' Hr')|].
        destruct (anchor r) as [[w'|]|e] eqn:Ha; simpl in Hg; try contradiction.
        exact (IH w' Hsub' (anchor_ok src0 r w' Hr0 Ha) g Hg r' Hr').
      * destruct (is_secondary r) eqn:Hs; [exact (IH _ Hsub' Hw g Hg r' Hr')|].
        destruct (rf_rewrap r) as [r2|e] eqn:Hrw; simpl in Hg; [|contradiction].
        refine (IH _ Hsub' _ g Hg r' Hr').
        simpl; intros x Hx; apply in_app_or in Hx as [Hx|[<-|[]]]; [exact (Hw x Hx)|].
        exists r; auto.
Qed.

Lemma go_skip_all_secondary (src : list R) :
  forallb is_secondary src = true -> groups_of (go SkipWait src) = [].
Proof.
  induction src as [|r rest IH]; simpl; [reflexivity|].
  intros Hs; apply andb_true_iff in Hs as [Hr Hrest].
  destruct (anchor r) as [[w|]|e] eqn:Ha; try reflexivity.
  destruct (anchor_cases r w Ha) as [->|(rg & id & r' & _ & _ & Hs)];
    [exact (IH Hrest)|congruence].
Qed.

(** C5: on the sorted reads [(a, 0, X); (a, 0x100, X); (a, 0, Y)] (with
    non-empty sequences, rebuilt unchanged by [type(r)(r.read)]) the
    grouper yields [(X, [read0])] then [(Y, [read2])] and ends; every read
    of every emitted group is a copy of a read of the input whose flag has
    no bit of [0x900]; an empty stream, and a stream of secondary or
    supplementary reads only, yield no group. *)
Theorem group_reads_by_qname_spec :
  (forall r0 r1 r2 : R,
      identifier r0 = Ok (PyStr "a") -> identifier r1 = Ok (PyStr "a") ->
      identifier r2 = Ok (PyStr "a") ->
      rf_flag r0 = 0%Z -> rf_flag r1 = 0x100%Z -> rf_flag r2 = 0%Z ->
      rf_rg_id r0 = Some "X" -> rf_rg_id r1 = Some "X" ->
      rf_rg_id r2 = Some "Y" ->
      (exists n, facade_len r0 = Ok (S n)) ->
      (exists n, facade_len r2 = Ok (S n)) ->
      rf_rewrap r0 = Ok r0 -> rf_rewrap r2 = Ok r2 ->
      group_reads_by_qname [r0; r1; r2]
      = GDone [(Some "X", [r0]); (Some "Y", [r2])])
  /\ (forall src g r', In g (groups_of (group_reads_by_qname src)) ->
        In r' (snd g) ->
        exists r, In r src /\ rf_rewrap r = Ok r'
                  /\ Z.land (rf_flag r) 0x900 = 0%Z)
  /\ group_reads_by_qname (S:=R) [] = GDone []
  /\ (forall src, forallb is_secondary src = true ->
        groups_of (group_reads_by_qname src) = []).
Proof.
  split; [|split; [|split; [reflexivity|]]].
  - intros r0 r1 r2 Hi0 Hi1 Hi2 Hf0 Hf1 Hf2 Hg0 Hg1 Hg2 [n0 Hl0] [n2 Hl2] Hw0 Hw2.
    assert (Hs0 : is_secondary r0 = false)
      by (unfold is_secondary; rewrite Hf0; reflexivity).
    assert (Hs1 : is_secondary r1 = true)
      by (unfold is_secondary; rewrite Hf1; reflexivity).
    assert (Hs2 : is_secondary r2 = false)
      by (unfold is_secondary; rewrite Hf2; reflexivity).
    assert (Ha0 : anchor r0 = Ok (Some (AccWait (Some "X") (PyStr "a") [r0])))
      by (unfold anchor; rewrite Hl0, Hs0, Hg0, Hi0, Hw0; reflexivity).
    assert (Ha2 : anchor r2 = Ok (Some (AccWait (Some "Y") (PyStr "a") [r2])))
      by (unfold anchor; rewrite Hl2, Hs2, Hg2, Hi2, Hw2; reflexivity).
    unfold group_reads_by_qname; rewrite Ha0.
    cbn [go]; rewrite Hi1, Hg1, Hs1; cbn [go pyval_eqb opt_str_eqb String.eqb negb orb].
    rewrite Hi2, Hg2; cbn [go pyval_eqb opt_str_eqb String.eqb negb orb].
    rewrite Ha2; reflexivity.
  - intros src g r' Hg Hr'.
    assert (Hp : from_primary src r').
    { destruct src as [|r rest]; simpl in Hg; [contradiction|].
      destruct (anchor r) as [[w|]|e] eqn:Ha; simpl in Hg; try contradiction.
      refine (go_from_primary (r :: rest) rest w _ _ g Hg r' Hr').
      - intros x Hx; right; exact Hx.
      - exact (anchor_ok (r :: rest) r w (in_eq r rest) Ha). }
    destruct Hp as (r & Hin & Hrw & Hs); exists r; split; [exact Hin|split; [exact Hrw|]].
    unfold is_secondary in Hs; apply negb_false_iff, Z.eqb_eq in Hs; exact Hs.
  - intros [|r rest] Hs; [reflexivity|]; simpl in Hs.
    apply andb_true_iff in Hs as [Hr Hrest]; simpl.
    destruct (anchor r) as [[w|]|e] eqn:Ha; try reflexivity.
    destruct (anchor_cases r w Ha) as [->|(rg & id & r' & _ & _ & Hs)];
      [exact (go_skip_all_secondary rest Hrest)|congruence].
Qed.

(** C10 (amended): when a read that the anchor loop tests with
    [while read1:] has a zero-length sequence, grouping ends at that read
    without error: from the first read, after a skipped read, or after the
    group it ends has been emitted, nothing more is yielded.  When that
    read's sequence is absent ([None]), [len(None)] raises [TypeError]
    there instead. *)
Theorem empty_anchor_stops_grouping :
  (forall r rest, facade_len r = Ok 0 ->
      group_reads_by_qname (r :: rest) = GDone [])
  /\ (forall r rest, facade_len r = Ok 0 -> go SkipWait (r :: rest) = GDone [])
  /\ (forall rg id acc r idn rest,
        identifier r = Ok idn ->
        pyval_eqb id idn = false \/ opt_str_eqb rg (rf_rg_id r) = false ->
        facade_len r = Ok 0 ->
        go (AccWait rg id acc) (r :: rest) = GDone [(rg, acc)])
  /\ (forall r rest, rf_sequence r = PyNone ->
        group_reads_by_qname (r :: rest) = GErr [] TypeError)
  /\ (forall r rest, rf_sequence r = PyNone ->
        go SkipWait (r :: rest) = GErr [] TypeError)
  /\ (forall rg id acc r idn rest,
        identifier r = Ok idn ->
        pyval_eqb id idn = false \/ opt_str_eqb rg (rf_rg_id r) = false ->
        rf_sequence r = PyNone ->
        go (AccWait rg id acc) (r :: rest) = GErr [(rg, acc)] TypeError).
Proof.
  assert (Hz : forall r, facade_len r = Ok 0 -> anchor r = Ok None)
    by (intros r Hl; unfold anchor; rewrite Hl; reflexivity).
  assert (Hn : forall r, rf_sequence r = PyNone -> anchor r = Err TypeError)
    by (intros r Hs; unfold anchor, facade_len; rewrite Hs; reflexivity).
  assert (Hbr : forall id idn rg r,
            pyval_eqb id idn = false \/ opt_str_eqb rg (rf_rg_id r) = false ->
            negb (pyval_eqb id idn) || negb (opt_str_eqb rg (rf_rg_id r)) = true)
    by (intros id idn rg r [E|E]; rewrite E; [reflexivity|apply orb_true_r]).
  split; [|split; [|split; [|split; [|split]]]].
  - intros r rest Hl; simpl; rewrite (Hz r Hl); reflexivity.
  - intros r rest Hl; simpl; rewrite (Hz r Hl); reflexivity.
  - intros rg id acc r idn rest Hi Hd Hl; simpl.
    rewrite Hi, (Hbr _ _ _ _ Hd), (Hz r Hl); reflexivity.
  - intros r rest Hs; simpl; rewrite (Hn r Hs); reflexivity.
  - intros r rest Hs; simpl; rewrite (Hn r Hs); reflexivity.
  - intros rg id acc r idn rest Hi Hd Hs; simpl.
    rewrite Hi, (Hbr _ _ _ _ Hd), (Hn r Hs); reflexivity.
Qed.

End Props.


Lemma group_reads_by_qname_spec_witness :
  group_reads_by_qname
    [aread "a" 0 "X" "ACGT"; aread "a" 0x100 "X" "ACGT"; aread "a" 0 "Y" "ACGT"]
  = GDone [(Some "X", [aread "a" 0 "X" "ACGT"]);
           (Some "Y", [aread "a" 0 "Y" "ACGT"])].
Proof.
  apply (proj1 (group_reads_by_qname_spec (R:=AlignedFacade.t)));
    try reflexivity; eexists; reflexivity.
Defined.

Lemma empty_anchor_stops_grouping_witness :
  group_reads_by_qname [aread "a" 0 "X" ""; aread "b" 0 "X" "ACGT"] = GDone []
  /\ go (AccWait (Some "X") (PyStr "a") [aread "a" 0 "X" "AC"])
       [aread "b" 0 "X" ""; aread "c" 0 "X" "ACGT"]
     = GDone [(Some "X", [aread "a" 0 "X" "AC"])].
Proof.
  split.
  - apply (proj1 (empty_anchor_stops_grouping (R:=AlignedFacade.t))); reflexivity.
  - apply (proj1 (proj2 (proj2 (empty_anchor_stops_grouping (R:=AlignedFacade.t))))
             _ _ _ _ (PyStr "b")); [reflexivity|left; reflexivity|reflexivity].
Defined.

(** C10 (as stated): a read with an absent sequence stops grouping without
    error.  It raises: [len(None)] in [while read1:] fails with
    [TypeError], here after the group of read ["a"] has been yielded. *)
Lemma absent_sequence_anchor_raises :
  group_reads_by_qname [aread "a" 0 "X" "ACGT"; no_seq_read "b"; aread "c" 0 "X" "ACGT"]
  = GErr [(Some "X", [aread "a" 0 "X" "ACGT"])] TypeError.
Proof. vm_compute; reflexivity. Qed.

End GroupingProps.

(** ** Read-group validation *)
Module SplitterProps.
Import Grouping Splitter GroupingProps.
Import Inputs.
Local Open Scope string_scope.

(** C7: when the grouper yields no group and ends normally (in particular
    on an empty stream), the first step of [ReadSplitter.__iter__] raises
    [RuntimeError('No reads in file. Aborting.')] and yields nothing. *)
Theorem split_iter_no_reads {R : Type} `{ReadFacade R} :
  forall (sp : splitter) (src : list R),
    group_reads_by_qname src = GDone [] ->
    split_iter sp src = GErr [] (RuntimeError "No reads in file. Aborting.").
Proof. intros sp src Hg; unfold split_iter; rewrite Hg; reflexivity. Qed.

Lemma split_iter_no_reads_witness :
  group_reads_by_qname (S:=SimpleRead.t) [] = GDone []
  /\ split_iter {| rg_set := None; default_rg := None |} (S:=SimpleRead.t) []
     = GErr [] (RuntimeError "No reads in file. Aborting.").
Proof.
  split; [reflexivity|].
  apply split_iter_no_reads; reflexivity.
Defined.


(** With a non-empty declared set, the first group always ends the
    iteration with the [NameError] of the unbound name [rg_set]. *)
Lemma split_iter_declared_first_group {R : Type} `{ReadFacade R}
  (sp : splitter) (src : list R) :
  set_truthy (rg_set sp) = true ->
  groups_of (group_reads_by_qname src) <> [] ->
  split_iter sp src = GErr [] (NameError "rg_set").
Proof.
  intros Hs Hg; unfold split_iter.
  destruct (groups_of (group_reads_by_qname src)) as [|[rg rs] gs];
    [congruence|].
  rewrite Hs; reflexivity.
Qed.

(** C6: a splitter built from a header declaring ["A"] and ["B"] does fail
    on a group of read group ["C"], with the missing-tag classification's
    read as well, but always with [NameError] ([rg_set] is unbound in
    [__iter__]); where the later-group check is reached (a header with an
    empty ["RG"] list), it raises [NameError] for [FormatParseError] for
    both an unknown and a missing tag, never a validation error carrying
    the token. *)
Theorem splitter_AB_rejects_C_with_NameError :
  make_splitter (Some hdr_AB) None = Ok sp_AB
  /\ split_iter sp_AB [aread "c" 0 "C" "ACGT"] = GErr [] (NameError "rg_set")
  /\ split_iter sp_AB [aread "a" 0 "A" "ACGT"; aread "c" 0 "C" "ACGT"]
     = GErr [] (NameError "rg_set")
  /\ make_splitter (Some [("RG", [])]) None
     = Ok {| rg_set := Some []; default_rg := None |}
  /\ split_iter {| rg_set := Some []; default_rg := None |}
       [aread "a" 0 "A" "ACGT"; aread "c" 0 "C" "ACGT"]
     = GErr [(Some "A", [aread "a" 0 "A" "ACGT"])] (NameError "FormatParseError")
  /\ split_iter {| rg_set := Some []; default_rg := None |}
       [aread "a" 0 "A" "ACGT";
        {| AlignedFacade.read :=
             {| qname := PyStr "c"; seq := PyStr "ACGT"; qual := PyStr "ACGT";
                flag := 0; tags := [] |} |}]
     = GErr [(Some "A", [aread "a" 0 "A" "ACGT"])] (NameError "FormatParseError").
Proof. repeat split; vm_compute; reflexivity. Qed.

End SplitterProps.

(** ** FASTA aggregations *)
Module FastaProps.
Import Fasta.
Import Inputs.
Local Open Scope string_scope.


(** [md5sums] and [describe_records] agree on a record without content
    lines (both [None]) and on a record whose concatenated sequence is not
    empty (both the digest of the uppercased data). *)
Lemma md5_describe_agree_no_lines (h : string) :
  md5sum_record h [] = Ok (h, None) /\ describe_record h [] = Ok (h, 0, None).
Proof. split; reflexivity. Qed.

Lemma str_length_append (s1 s2 : string) :
  String.length (s1 ++ s2) = String.length s1 + String.length s2.
Proof. induction s1 as [|c s1 IH]; simpl; [reflexivity|rewrite IH; reflexivity]. Qed.

Lemma length_concat_seq_cons (l : string) (ls : list string) :
  String.length (concat_seq (l :: ls))
  = String.length l + String.length (concat_seq ls).
Proof.
  unfold concat_seq; destruct ls as [|l' ls]; simpl; [lia|].
  rewrite str_length_append; reflexivity.
Qed.

Lemma fold_length_app (lines : list string) (n : nat) :
  fold_left (fun k l => k + String.length l) lines n
  = n + String.length (concat_seq lines).
Proof.
  revert n; induction lines as [|l ls IH]; intros n; simpl.
  - lia.
  - rewrite IH, length_concat_seq_cons; lia.
Qed.

Lemma md5_describe_agree_nonempty (h : string) (lines : list string) (d : string) :
  concat_seq lines <> "" -> md5_feed "" lines = Ok d ->
  md5sum_record h lines = Ok (h, Some (md5_hexdigest d))
  /\ describe_record h lines
     = Ok (h, String.length (concat_seq lines), Some (md5_hexdigest d)).
Proof.
  intros Hne Hd; unfold md5sum_record, describe_record.
  rewrite Hd, fold_length_app; simpl.
  destruct lines as [|l ls]; [exfalso; apply Hne; reflexivity|split; [reflexivity|]].
  destruct (Nat.eqb (String.length (concat_seq (l :: ls))) 0) eqn:E.
  - apply Nat.eqb_eq in E; destruct (concat_seq (l :: ls)); [congruence|discriminate].
  - reflexivity.
Qed.

(** C8: for the record [">h"] whose only content line is blank, the
    concatenated sequence is empty, yet [md5sums] yields the digest of the
    empty data for it while [describe_records] yields [None]. *)
Theorem md5sums_blank_line_record :
  records blank_record_src = Ok [("h", [""]); ("g", ["ac"])]
  /\ concat_seq [""] = ""
  /\ md5sums blank_record_src
     = Ok [("h", Some (md5_hexdigest "")); ("g", Some (md5_hexdigest "AC"))]
  /\ describe_records blank_record_src
     = Ok [("h", 0, None); ("g", 2, Some (md5_hexdigest "AC"))].
Proof. repeat split; vm_compute; reflexivity. Qed.

End FastaProps.


(** ** Sequence transforms: reversal and complement together *)
Module SeqTransformExtra.
Import SeqTransform StringFacts.

Lemma table_char_involutive (is_dna : bool) (c : ascii) :
  let tbl := if is_dna then DNA_TRANSLATION_TABLE else RNA_TRANSLATION_TABLE in
  translate_char tbl (translate_char tbl c) = c.
Proof.
  destruct is_dna; [apply SeqTransformProps.dna_char_involutive
                   |apply SeqTransformProps.rna_char_involutive].
Qed.

(** [reverse_complement] is an involution, for DNA and RNA alike. *)
Theorem reverse_complement_involutive (s : string) (is_dna : bool) :
  reverse_complement (reverse_complement s is_dna) is_dna = s.
Proof.
  pose proof (table_char_involutive is_dna) as Hc; simpl in Hc.
  destruct is_dna; unfold reverse_complement, translate;
    rewrite <- str_map_reverse, str_reverse_involutive;
    apply SeqTransformProps.str_map_involutive; exact Hc.
Qed.

(** Reversal and complement commute: [reverse_complement] is both the
    complement of the reversed sequence and the reversal of the complement. *)
Theorem reverse_complement_commutes (s : string) (is_dna : bool) :
  reverse_complement s is_dna = complement (reverse s) is_dna
  /\ reverse_complement s is_dna = reverse (complement s is_dna).
Proof.
  destruct is_dna; unfold reverse_complement, complement, reverse, translate;
    split; try reflexivity; apply str_map_reverse.
Qed.

End SeqTransformExtra.

(** ** FASTQ parsing: records yielded and the four-line layout *)
Module FastqExtra.
Import Fastq FastqLayout StringFacts FastqFacts.
Local Open Scope string_scope.

Lemma yielded_fq_cons (r : record) (o : fq_outcome) :
  yielded (fq_cons r o) = r :: yielded o.
Proof. destruct o; reflexivity. Qed.

Lemma fastq_loop_lengths (fuel : nat) :
  forall title src t s q,
  In (t, s, q) (yielded (fastq_loop fuel title src)) ->
  String.length q = String.length s /\ 0 < String.length s.
Proof.
  induction fuel as [|fuel IH]; intros title src t s q Hin; simpl in Hin;
    [contradiction|].
  destruct (first_char_is title title_token) as [[|]|]; [|
    destruct (String.eqb (rstrip title) ""); [eapply IH; exact Hin|contradiction]
  | contradiction].
  destruct (read_seq_lines [] src) as [| |lines rest]; try contradiction.
  destruct (Nat.eqb (String.length (join lines)) 0) eqn:E0; [contradiction|].
  destruct (read_qual_lines (String.length (join lines)) 0 [] rest)
    as [[[qlines n] rest']|] eqn:Eq; [|contradiction].
  destruct (Nat.ltb (String.length (join lines)) n) eqn:Elt; [contradiction|].
  rewrite yielded_fq_cons in Hin; destruct Hin as [Heq|Hin].
  - inversion Heq; subst.
    destruct (read_qual_lines_length _ _ _ _ _ _ _ Eq eq_refl) as [Hn Hle].
    apply Nat.ltb_ge in Elt; apply Nat.eqb_neq in E0; lia.
  - destruct rest' as [|title' rest'']; [contradiction|].
    eapply IH; exact Hin.
Qed.

(** Every record the FASTQ parser yields, whether iteration then completes,
    fails or is still running, has a non-empty sequence and a quality string
    of the same length. *)
Theorem fastq_yielded_lengths (fuel : nat) (src : list string) (t s q : string) :
  In (t, s, q) (yielded (fastq_records fuel src)) ->
  String.length q = String.length s /\ 0 < String.length s.
Proof.
  destruct src as [|title rest]; simpl; [contradiction|].
  apply fastq_loop_lengths.
Qed.

Lemma read_qual_lines_done (seqlen quallen : nat) (acc src : list string) :
  seqlen <= quallen -> read_qual_lines seqlen quallen acc src = Some (acc, quallen, src).
Proof.
  intros Hle; destruct src; simpl;
    replace (Nat.ltb quallen seqlen) with false
      by (symmetry; apply Nat.ltb_ge; exact Hle); reflexivity.
Qed.

Lemma fastq_records_cons (fuel : nat) (r : record) (rest : list string) :
  well_formed r = true ->
  fastq_records (S fuel) (app (lines_of_record r) rest)
  = fq_cons r (fastq_records fuel rest).
Proof.
  destruct r as [[t s] q]; unfold well_formed; intros Hwf.
  repeat rewrite andb_true_iff in Hwf.
  destruct Hwf as [[[[Ht Hs] Hq] Hc] Hlen].
  apply String.eqb_eq in Ht, Hs, Hq; apply Nat.eqb_eq in Hlen.
  destruct s as [|c s']; [discriminate|].
  apply negb_true_iff, Ascii.eqb_neq in Hc.
  simpl app; unfold fastq_records; cbn [fastq_loop first_char_is].
  replace (Ascii.eqb "@" title_token) with true by reflexivity.
  replace (substring 1 (String.length (String "@" t) - 1) (String "@" t)) with t
    by (simpl; rewrite Nat.sub_0_r, substring_0_length; reflexivity).
  rewrite Ht.
  cbn [read_seq_lines first_char_is].
  destruct (Ascii.eqb c sep_token) eqn:Ec; [apply Ascii.eqb_eq in Ec; contradiction|].
  replace (Ascii.eqb "+" sep_token) with true by reflexivity.
  cbn [app]; rewrite Hs.
  change (join [String c s']) with (String c s').
  cbn [String.length Nat.eqb].
  cbn [read_qual_lines]. rewrite Hq. cbn [String.length] in Hlen. rewrite Hlen.
  cbn [Nat.add app read_qual_lines].
  replace (Nat.ltb 0 (S (String.length s'))) with true by reflexivity.
  rewrite read_qual_lines_done by lia.
  rewrite Nat.ltb_irrefl.
  change (join [q]) with q.
  destruct rest as [|title' rest'']; reflexivity.
Qed.

(** Round trip: records laid out as [@title], sequence, [+], quality lines
    are parsed back into exactly those records, provided no field has
    trailing whitespace, each sequence is non-empty and does not start with
    [+], each quality is as long as its sequence, and the loop may run once
    per record. *)
Theorem fastq_layout_roundtrip (fuel : nat) (recs : list record) :
  forallb well_formed recs = true -> length recs <= fuel ->
  fastq_records fuel (lines_of recs) = FqDone recs.
Proof.
  revert fuel; induction recs as [|r recs IH]; intros fuel Hwf Hf.
  - destruct fuel; reflexivity.
  - simpl in Hwf; apply andb_true_iff in Hwf as [Hr Hwf].
    destruct fuel as [|fuel]; simpl in Hf; [lia|].
    unfold lines_of; simpl flat_map; fold (lines_of recs).
    rewrite fastq_records_cons by exact Hr.
    rewrite IH by (auto; lia); reflexivity.
Qed.

Lemma fastq_yielded_lengths_witness :
  In ("r1", "ACGT", "!!!!") (yielded (fastq_records 4 Inputs.r1_ok))
  /\ String.length "!!!!" = String.length "ACGT" /\ 0 < String.length "ACGT".
Proof.
  split; [vm_compute; left; reflexivity|].
  apply (fastq_yielded_lengths 4 Inputs.r1_ok "r1" "ACGT" "!!!!").
  vm_compute; left; reflexivity.
Defined.

Lemma fastq_layout_roundtrip_witness :
  forallb well_formed Inputs.fq_two_recs = true /\ length Inputs.fq_two_recs <= 2
  /\ fastq_records 2 (lines_of Inputs.fq_two_recs) = FqDone Inputs.fq_two_recs.
Proof.
  split; [vm_compute; reflexivity|split; [simpl; lia|]].
  apply fastq_layout_roundtrip; [vm_compute; reflexivity|simpl; lia].
Defined.

End FastqExtra.

(** ** FASTA grouping and the reader's views *)
Module FastaExtra.
Import Fasta FastaViews StringFacts.
Local Open Scope string_scope.

Definition uniform (g : bool * list string) : Prop :=
  forall l, In l (snd g) -> is_header l = fst g.

Lemma groupby_from_head (k : bool) (cur src : list string) :
  exists x gs, groupby_from k cur src = (k, app cur x) :: gs.
Proof.
  revert cur; induction src as [|l src IH]; intros cur; simpl.
  - exists [], []; rewrite app_nil_r; reflexivity.
  - destruct (Bool.eqb (is_header l) k).
    + destruct (IH (app cur [l])) as [x [gs E]]; rewrite E.
      exists (l :: x), gs; rewrite <- app_assoc; reflexivity.
    + exists [], (groupby_from (is_header l) [l] src); rewrite app_nil_r; reflexivity.
Qed.

Lemma groupby_from_parts (k : bool) (cur src : list string) :
  uniform (k, cur) ->
  Forall uniform (groupby_from k cur src)
  /\ concat (map snd (groupby_from k cur src)) = app cur src.
Proof.
  revert k cur; induction src as [|l src IH]; intros k cur Hu; simpl.
  - split; [constructor; [exact Hu|constructor]|reflexivity].
  - destruct (Bool.eqb (is_header l) k) eqn:E.
    + apply Bool.eqb_prop in E.
      destruct (IH k (app cur [l])) as [Hf Hc].
      { intros x Hx; apply in_app_or in Hx as [Hx|[<-|[]]]; [apply Hu; exact Hx|exact E]. }
      split; [exact Hf|rewrite Hc, <- app_assoc; reflexivity].
    + destruct (IH (is_header l) [l]) as [Hf Hc].
      { intros x [<-|[]]; reflexivity. }
      split; [constructor; assumption|simpl; rewrite Hc; reflexivity].
Qed.

Lemma group_on_separator_from_content (h : option string)
  (gs : list (bool * list string)) :
  flat_map snd (group_on_separator_from h gs)
  = flat_map (fun g : bool * list string => if fst g then [] else snd g) gs.
Proof.
  revert h; induction gs as [|[[|] item] gs IH]; intros h; simpl.
  - reflexivity.
  - rewrite flat_map_app, IH.
    induction (removelast (map header_tail_of item)); simpl; auto.
  - rewrite IH; reflexivity.
Qed.

Lemma content_of_uniform (gs : list (bool * list string)) :
  Forall uniform gs ->
  flat_map (fun g : bool * list string => if fst g then [] else snd g) gs
  = filter (fun l => negb (is_header l)) (concat (map snd gs)).
Proof.
  induction gs as [|[k item] gs IH]; intros Hf; simpl; [reflexivity|].
  inversion Hf as [|? ? Hu Hf']; subst.
  rewrite filter_app, IH by exact Hf'; f_equal.
  unfold uniform in Hu; simpl in Hu.
  destruct k.
  - rewrite (filter_ext_in _ (fun _ => false)), filter_false; [reflexivity|].
    intros l Hl; rewrite Hu by exact Hl; reflexivity.
  - rewrite (filter_ext_in _ (fun _ => true)), filter_true; [reflexivity|].
    intros l Hl; rewrite Hu by exact Hl; reflexivity.
Qed.

Lemma group_on_separator_content (src : list string) :
  flat_map snd (group_on_separator src)
  = filter (fun l => negb (is_header l)) src.
Proof.
  unfold group_on_separator; rewrite group_on_separator_from_content.
  destruct src as [|l src]; [reflexivity|unfold groupby].
  destruct (groupby_from_parts (is_header l) [l] src) as [Hf Hc].
  { intros x [<-|[]]; reflexivity. }
  rewrite content_of_uniform by exact Hf; rewrite Hc; reflexivity.
Qed.

Lemma records_lines (src : list string) (recs : list (string * list string)) :
  records src = Ok recs ->
  map snd recs = map (fun p => map parse_sequence_line (snd p)) (group_on_separator src).
Proof.
  unfold records; destruct (group_on_separator src) as [|[[h|] ls] gs];
    intros E; try discriminate.
  injection E as E; subst recs; simpl; rewrite map_map; reflexivity.
Qed.

(** Every content line (a line not starting with [>]) of a FASTA input
    ends up, parsed, in exactly one record, in input order: concatenating
    the parsed line lists of the records the reader yields gives the
    parsed content lines of the input. *)
Theorem records_keep_content (src : list string) (recs : list (string * list string)) :
  records src = Ok recs ->
  flat_map snd recs = map parse_sequence_line (filter (fun l => negb (is_header l)) src).
Proof.
  intros E; rewrite <- group_on_separator_content, !flat_map_concat_map.
  rewrite (records_lines src recs E), concat_map, map_map.
  reflexivity.
Qed.

(** An input whose first line is not a header line is rejected with the
    'not in fasta format' error before any record is yielded. *)
Theorem records_first_line_not_header (l : string) (rest : list string) :
  is_header l = false ->
  records (l :: rest)
  = Err (FastaParseError
           "Input does not seem to be in fasta format (expected '>' as first character).").
Proof.
  intros Hl; unfold records, group_on_separator, groupby.
  destruct (groupby_from_head (is_header l) [l] rest) as [x [gs E]].
  rewrite E, Hl; reflexivity.
Qed.

Lemma last_default_irrelevant {A} (x : A) (l : list A) (d d' : A) :
  last (x :: l) d = last (x :: l) d'.
Proof. revert x; induction l as [|y l IH]; intros x; [reflexivity|exact (IH y)]. Qed.

Lemma last_cons_default (b : bool) (bs : list bool) (d : bool) :
  last (b :: bs) d = last bs b.
Proof.
  destruct bs as [|b' bs]; [reflexivity|].
  exact (last_default_irrelevant b' bs d b).
Qed.

Lemma groupby_from_snoc_header (h : string) (src : list string) :
  is_header h = true ->
  forall k cur, last (map is_header src) k = false ->
  groupby_from k cur (app src [h]) = app (groupby_from k cur src) [(true, [h])].
Proof.
  intros Hh; induction src as [|l src IH]; intros k cur Hlast.
  - simpl in Hlast; subst k; simpl; rewrite Hh; reflexivity.
  - change (map is_header (l :: src)) with (is_header l :: map is_header src) in Hlast.
    rewrite last_cons_default in Hlast.
    simpl; destruct (Bool.eqb (is_header l) k) eqn:E.
    + apply Bool.eqb_prop in E; subst k; apply IH; exact Hlast.
    + simpl; f_equal; apply IH; exact Hlast.
Qed.

Lemma group_on_separator_from_snoc_header (x : string) :
  forall (hd : option string) (gs : list (bool * list string)),
  group_on_separator_from hd (app gs [(true, [x])]) = group_on_separator_from hd gs.
Proof.
  intros hd gs; revert hd; induction gs as [|[[|] item] gs IH]; intros hd; simpl.
  - reflexivity.
  - rewrite IH; reflexivity.
  - rewrite IH; reflexivity.
Qed.

(** A header line at the very end of the input, after a content line (or
    alone), is dropped: no record is yielded for it, not even an empty one.
    In particular an input made of one header line yields no record at all
    and fails like the empty input. *)
Theorem trailing_header_dropped (src : list string) (h : string) :
  is_header h = true -> ends_with_content src = true ->
  group_on_separator (app src [h]) = group_on_separator src
  /\ records (app src [h]) = records src.
Proof.
  intros Hh Hend.
  assert (G : group_on_separator (app src [h]) = group_on_separator src).
  { unfold group_on_separator, groupby.
    destruct src as [|l src]; simpl.
    - rewrite Hh; reflexivity.
    - unfold ends_with_content in Hend.
      change (map is_header (l :: src)) with (is_header l :: map is_header src) in Hend.
      rewrite last_cons_default in Hend; apply negb_true_iff in Hend.
      rewrite groupby_from_snoc_header by assumption.
      apply group_on_separator_from_snoc_header. }
  split; [exact G|unfold records; rewrite G; reflexivity].
Qed.

Lemma groupby_from_cons_cur (k : bool) (a : string) (src : list string) :
  forall cur,
  groupby_from k (a :: cur) src
  = match groupby_from k cur src with
    | (k', item) :: gs => (k', a :: item) :: gs
    | [] => []
    end.
Proof.
  induction src as [|l src IH]; intros cur; simpl; [reflexivity|].
  destruct (Bool.eqb (is_header l) k); [apply IH|reflexivity].
Qed.

(** A header line directly followed by another header line yields a record
    with that header and no content lines. *)
Theorem header_before_header_empty_record (h1 h2 : string) (rest : list string) :
  is_header h1 = true -> is_header h2 = true ->
  group_on_separator (h1 :: h2 :: rest)
  = (Some (header_tail_of h1), []) :: group_on_separator (h2 :: rest).
Proof.
  intros H1 H2; unfold group_on_separator, groupby.
  rewrite H1, H2; cbn [groupby_from]; rewrite H2; cbn [Bool.eqb].
  change (app [h1] [h2]) with (h1 :: [h2]); rewrite (groupby_from_cons_cur true h1 rest [h2]).
  destruct (groupby_from_head true [h2] rest) as [x [gs E]]; rewrite E.
  reflexivity.
Qed.

(** [seqlens] yields, for each record, the length of the sequence that
    [sequences] yields for it; both fail alike. *)
Theorem seqlens_are_sequence_lengths (src : list string) :
  seqlens src
  = let! ss := sequences src in
    Ok (map (fun p => (fst p, String.length (snd p))) ss).
Proof.
  unfold seqlens, sequences; destruct (records src) as [recs|e]; [|reflexivity].
  rewrite map_map; f_equal; apply map_ext; intros [h ls]; simpl.
  rewrite FastaProps.fold_length_app; reflexivity.
Qed.

Lemma map_res_ok {A B} (f : A -> res B) (l : list A) (ys : list B) :
  map_res f l = Ok ys -> Forall2 (fun x y => f x = Ok y) l ys.
Proof.
  revert ys; induction l as [|x l IH]; intros ys E; simpl in E.
  - injection E as <-; constructor.
  - destruct (f x) as [y|e] eqn:Ef; [|discriminate].
    destruct (map_res f l) as [ys'|e] eqn:El; [|discriminate].
    injection E as <-; constructor; [exact Ef|apply IH; reflexivity].
Qed.

(** Whenever [describe_records] succeeds, the identifiers and lengths it
    yields are those [seqlens] yields. *)
Theorem describe_records_lengths (src : list string)
  (ds : list (string * nat * option hexdigest)) :
  describe_records src = Ok ds -> seqlens src = Ok (map fst ds).
Proof.
  unfold describe_records, seqlens; destruct (records src) as [recs|e];
    [|discriminate].
  intros E; apply map_res_ok in E; f_equal.
  induction E as [|[h ls] d recs ds Hd _ IH]; [reflexivity|].
  simpl; rewrite IH; f_equal.
  unfold describe_record in Hd; simpl in Hd.
  destruct (md5_feed "" ls) as [data|e]; [|discriminate].
  destruct (Nat.eqb _ 0); injection Hd as <-; reflexivity.
Qed.

Lemma str_append_assoc (a b c : string) : (a ++ b) ++ c = a ++ (b ++ c).
Proof. induction a as [|x a IH]; simpl; [reflexivity|rewrite IH; reflexivity]. Qed.

Lemma str_append_nil (a : string) : a ++ "" = a.
Proof. induction a as [|x a IH]; simpl; [reflexivity|rewrite IH; reflexivity]. Qed.

Lemma concat_seq_cons (l : string) (ls : list string) :
  concat_seq (l :: ls) = l ++ concat_seq ls.
Proof. unfold concat_seq; destruct ls; simpl; [rewrite str_append_nil|]; reflexivity. Qed.

Lemma upper_encode_app (a b : string) :
  upper_encode (a ++ b)
  = let! x := upper_encode a in let! y := upper_encode b in Ok (x ++ y).
Proof.
  induction a as [|c a IH]; simpl.
  - destruct (upper_encode b); reflexivity.
  - destruct (upper_encode_char c) as [u|]; [|reflexivity].
    rewrite IH; destruct (upper_encode a) as [x|e]; [|reflexivity].
    destruct (upper_encode b) as [y|e]; [|reflexivity].
    rewrite str_append_assoc; reflexivity.
Qed.

Lemma md5_feed_concat (lines : list string) :
  forall acc, md5_feed acc lines
  = let! x := upper_encode (concat_seq lines) in Ok (acc ++ x).
Proof.
  induction lines as [|l ls IH]; intros acc; simpl.
  - rewrite str_append_nil; reflexivity.
  - rewrite concat_seq_cons, upper_encode_app.
    destruct (upper_encode l) as [b|e]; [|reflexivity].
    rewrite IH; destruct (upper_encode (concat_seq ls)) as [y|e]; [|reflexivity].
    rewrite str_append_assoc; reflexivity.
Qed.

(** Feeding the content lines of a record to the digest one by one amounts
    to digesting the uppercased ASCII encoding of the whole sequence: a
    record with content lines gets the digest of [upper(''.join(lines))]
    from [md5sums] and [describe_records] (or [UnicodeEncodeError] when that
    sequence is not encodable), a record without content lines gets [None]
    from [md5sums]. *)
Theorem md5_of_joined_sequence (h : string) (lines : list string) :
  md5sum_record h lines
  = match lines with
    | [] => Ok (h, None)
    | _ => let! d := upper_encode (concat_seq lines) in
           Ok (h, Some (md5_hexdigest d))
    end
  /\ describe_record h lines
  = let! d := upper_encode (concat_seq lines) in
    let n := String.length (concat_seq lines) in
    if Nat.eqb n 0 then Ok (h, n, None) else Ok (h, n, Some (md5_hexdigest d)).
Proof.
  destruct lines as [|l ls]; [split; reflexivity|].
  unfold md5sum_record, describe_record.
  rewrite md5_feed_concat, FastaProps.fold_length_app; simpl.
  destruct (upper_encode (concat_seq (l :: ls))) as [d|e]; split; reflexivity.
Qed.

Lemma records_keep_content_witness :
  records Inputs.fasta_src = Ok Inputs.fasta_src_recs
  /\ flat_map snd Inputs.fasta_src_recs
     = map parse_sequence_line
         (filter (fun l => negb (is_header l)) Inputs.fasta_src).
Proof.
  split; [vm_compute; reflexivity|].
  apply (records_keep_content Inputs.fasta_src); vm_compute; reflexivity.
Defined.

Lemma records_first_line_not_header_witness :
  is_header "ACGT" = false
  /\ records ["ACGT"; ">a"; "AC"]
     = Err (FastaParseError
              "Input does not seem to be in fasta format (expected '>' as first character).").
Proof.
  split; [vm_compute; reflexivity|].
  apply records_first_line_not_header; vm_compute; reflexivity.
Defined.

Lemma trailing_header_dropped_witness :
  is_header ">b" = true /\ ends_with_content [">a"; "AC"] = true
  /\ group_on_separator (app [">a"; "AC"] [">b"]) = group_on_separator [">a"; "AC"]
  /\ records (app [">a"; "AC"] [">b"]) = records [">a"; "AC"].
Proof.
  split; [vm_compute; reflexivity|split; [vm_compute; reflexivity|]].
  apply trailing_header_dropped; vm_compute; reflexivity.
Defined.

Lemma header_before_header_empty_record_witness :
  is_header ">b" = true /\ is_header ">c" = true
  /\ group_on_separator [">b"; ">c"; "GG"]
     = (Some (header_tail_of ">b"), []) :: group_on_separator [">c"; "GG"].
Proof.
  split; [vm_compute; reflexivity|split; [vm_compute; reflexivity|]].
  apply header_before_header_empty_record; vm_compute; reflexivity.
Defined.

Lemma describe_records_lengths_witness :
  describe_records Inputs.fasta_src = Ok Inputs.fasta_src_described
  /\ seqlens Inputs.fasta_src = Ok (map fst Inputs.fasta_src_described).
Proof.
  split; [vm_compute; reflexivity|].
  apply describe_records_lengths; vm_compute; reflexivity.
Defined.

End FastaExtra.

(** ** Identifier sanitizing *)
Module SanitizeExtra.
Import Sanitize StringFacts.
Local Open Scope string_scope.

Lemma is_safe_id_concat (l : list string) :
  is_safe_id (String.concat "" l) = forallb is_safe_id l.
Proof.
  unfold is_safe_id; rewrite list_ascii_concat_empty.
  induction l as [|x l IH]; simpl; [reflexivity|].
  rewrite forallb_app, IH; reflexivity.
Qed.

Lemma percent_pieces_safe (c : ascii) : forallb is_safe_id (percent_pieces c) = true.
Proof. destruct c as [[] [] [] [] [] [] [] []]; vm_compute; reflexivity. Qed.

Lemma amended_for_safe (rep : option string) (c : ascii) :
  (forall r, rep = Some r -> is_safe_id r = true) ->
  forallb is_safe_id (amended_for rep c) = true.
Proof.
  intros Hr; unfold amended_for.
  destruct (is_safe_char c) eqn:Ec.
  - unfold is_safe_id; simpl; rewrite Ec; reflexivity.
  - destruct rep as [r|]; [|apply percent_pieces_safe].
    destruct (String.eqb r ""); [apply percent_pieces_safe|].
    simpl; rewrite (Hr r eq_refl); reflexivity.
Qed.

Lemma forallb_flat_map {A B} (p : B -> bool) (f : A -> list B) (l : list A) :
  forallb p (flat_map f l) = forallb (fun x => forallb p (f x)) l.
Proof.
  induction l as [|x l IH]; simpl; [reflexivity|].
  rewrite forallb_app, IH; reflexivity.
Qed.

Lemma sanitized_is_safe (identifier : string) (rep : option string) :
  (forall r, rep = Some r -> is_safe_id r = true) ->
  is_safe_id (get_sanitized_id identifier rep) = true.
Proof.
  intros Hr; unfold get_sanitized_id; rewrite is_safe_id_concat, forallb_flat_map.
  apply forallb_forall; intros c _; apply amended_for_safe; exact Hr.
Qed.

Lemma concat_singletons (l : list ascii) :
  String.concat "" (map (fun c => String c "") l) = string_of_list_ascii l.
Proof.
  induction l as [|c l IH]; [reflexivity|].
  destruct l as [|c' l]; [reflexivity|].
  change (String.concat "" (map (fun c0 => String c0 "") (c :: c' :: l)))
    with (String c "" ++ "" ++ String.concat "" (map (fun c0 => String c0 "") (c' :: l))).
  rewrite IH; reflexivity.
Qed.

Lemma flat_map_amended_safe (rep : option string) (l : list ascii) :
  forallb is_safe_char l = true ->
  flat_map (amended_for rep) l = map (fun c => String c "") l.
Proof.
  induction l as [|c l IH]; simpl; [reflexivity|].
  intros H; apply andb_true_iff in H as [Hc Hl].
  unfold amended_for at 1; rewrite Hc, IH by exact Hl; reflexivity.
Qed.

(** [get_sanitized_id] leaves an identifier that [is_safe_id] accepts
    unchanged, whatever the replacement string. *)
Theorem safe_id_unchanged (identifier : string) (rep : option string) :
  is_safe_id identifier = true -> get_sanitized_id identifier rep = identifier.
Proof.
  unfold is_safe_id, get_sanitized_id; intros Hs.
  rewrite flat_map_amended_safe, concat_singletons by exact Hs.
  apply string_of_list_ascii_of_string.
Qed.

(** The output of [get_sanitized_id] always passes [is_safe_id] when the
    replacement string is [None], empty, or itself safe (percent encoding
    only produces [%], digits and [A]-[F]); sanitizing it again then
    changes nothing. *)
Theorem sanitized_id_safe (identifier : string) (rep : option string) :
  (forall r, rep = Some r -> is_safe_id r = true) ->
  is_safe_id (get_sanitized_id identifier rep) = true
  /\ get_sanitized_id (get_sanitized_id identifier rep) rep
     = get_sanitized_id identifier rep.
Proof.
  intros Hr; pose proof (sanitized_is_safe identifier rep Hr) as Hs.
  split; [exact Hs|].
  unfold get_sanitized_id at 1; unfold is_safe_id in Hs.
  rewrite flat_map_amended_safe, concat_singletons by exact Hs.
  apply string_of_list_ascii_of_string.
Qed.

Lemma sanitized_id_safe_witness :
  (forall r, Some "_" = Some r -> is_safe_id r = true)
  /\ is_safe_id (get_sanitized_id "a b;c" (Some "_")) = true
  /\ get_sanitized_id (get_sanitized_id "a b;c" (Some "_")) (Some "_")
     = get_sanitized_id "a b;c" (Some "_").
Proof.
  assert (H : forall r, Some "_" = Some r -> is_safe_id r = true)
    by (intros r E; injection E as <-; vm_compute; reflexivity).
  split; [exact H|apply sanitized_id_safe; exact H].
Defined.

Lemma safe_id_unchanged_witness :
  is_safe_id "chr1_A" = true /\ get_sanitized_id "chr1_A" None = "chr1_A".
Proof.
  split; [vm_compute; reflexivity|].
  apply safe_id_unchanged; vm_compute; reflexivity.
Defined.

End SanitizeExtra.

(** ** Alphabet-checked FASTA readers *)
Module FastaAlphabetExtra.
Import Fasta FastaAlphabet.
Local Open Scope string_scope.

Lemma first_invalid_some (alphabet : string) (l : list ascii) (c : ascii) :
  first_invalid alphabet l = Some c -> In c l /\ in_alphabet alphabet c = false.
Proof.
  induction l as [|x l IH]; simpl; [discriminate|].
  destruct (in_alphabet alphabet x) eqn:Ex.
  - intros H; destruct (IH H); auto.
  - intros H; injection H as <-; auto.
Qed.

(** Draining the parsed lines of a record with an alphabet-checked reader
    either gives all lines parsed as by the plain reader, every character of
    them in the alphabet, or stops at the first line holding a character
    outside the alphabet: the error carries that character (the first bad
    one of the parsed line), the record's header and the 1-based number of
    that line (counting from [n]), and all earlier lines were valid. *)
Theorem checked_seqlines_result (alphabet header : string) (lines : list string) :
  forall n,
  match checked_seqlines alphabet header n lines with
  | inl ps =>
      ps = map parse_sequence_line lines
      /\ forall l, In l lines -> first_invalid alphabet (list_ascii_of_string (parse_sequence_line l)) = None
  | inr (InvalidLetter c h m) =>
      h = header /\ n <= m
      /\ (forall l, In l (firstn (m - n) lines) ->
            first_invalid alphabet (list_ascii_of_string (parse_sequence_line l)) = None)
      /\ exists l, nth_error lines (m - n) = Some l
         /\ first_invalid alphabet (list_ascii_of_string (parse_sequence_line l)) = Some c
         /\ In c (list_ascii_of_string (parse_sequence_line l))
         /\ in_alphabet alphabet c = false
  end.
Proof.
  induction lines as [|l lines IH]; intros n; simpl.
  - split; [reflexivity|intros _ []].
  - destruct (first_invalid alphabet (list_ascii_of_string (parse_sequence_line l)))
      as [c|] eqn:Ef.
    + destruct (first_invalid_some _ _ _ Ef) as [Hin Hout].
      split; [reflexivity|split; [lia|]].
      rewrite Nat.sub_diag; split; [intros _ []|].
      exists l; auto.
    + specialize (IH (S n)).
      destruct (checked_seqlines alphabet header (S n) lines) as [ps|[c h m]].
      * destruct IH as [-> Hall]; split; [reflexivity|].
        intros x [<-|Hx]; [exact Ef|apply Hall; exact Hx].
      * destruct IH as [Hh [Hle [Hpre Hat]]].
        replace (m - n) with (S (m - S n)) by lia.
        split; [exact Hh|split; [lia|split; [|exact Hat]]].
        intros x [<-|Hx]; [exact Ef|apply Hpre; exact Hx].
Qed.

Lemma checked_seqlines_result_witness :
  checked_seqlines nucleotide_alphabet "h" 1 ["ACGT"; " ac gt "; "AXC"]
  = inr (InvalidLetter "X" "h" 3)
  /\ exists l, nth_error ["ACGT"; " ac gt "; "AXC"] 2 = Some l
     /\ In "X"%char (list_ascii_of_string (parse_sequence_line l)).
Proof.
  assert (E : checked_seqlines nucleotide_alphabet "h" 1 ["ACGT"; " ac gt "; "AXC"]
              = inr (InvalidLetter "X" "h" 3)) by (vm_compute; reflexivity).
  split; [exact E|].
  pose proof (checked_seqlines_result nucleotide_alphabet "h"
                ["ACGT"; " ac gt "; "AXC"] 1) as H.
  rewrite E in H; destruct H as (_ & _ & _ & l & Hl & _ & Hin & _).
  exists l; split; [exact Hl|exact Hin].
Defined.

End FastaAlphabetExtra.

(** ** Grouping reads by template: what a group holds *)
Module GroupingExtra.
Import Grouping Inputs.
Local Open Scope string_scope.

Lemma pyval_eqb_eq (a b : pyval) : pyval_eqb a b = true -> a = b.
Proof.
  destruct a, b; simpl; intros H; try discriminate; try reflexivity;
    apply String.eqb_eq in H; subst; reflexivity.
Qed.

Lemma pyval_eqb_refl (a : pyval) : pyval_eqb a a = true.
Proof. destruct a; simpl; try reflexivity; apply String.eqb_refl. Qed.

Lemma opt_str_eqb_eq (a b : option string) : opt_str_eqb a b = true -> a = b.
Proof.
  destruct a, b; simpl; intros H; try discriminate; try reflexivity.
  apply String.eqb_eq in H; subst; reflexivity.
Qed.

Lemma opt_str_eqb_refl (a : option string) : opt_str_eqb a a = true.
Proof. destruct a; simpl; [apply String.eqb_refl|reflexivity]. Qed.

Section Extra.
Context {R : Type} `{ReadFacade R}.

(** A read of [src] that a group built with read group [rg] and
    identifier [id] may hold. *)
Definition member_of (src : list R) (rg : option string) (id : pyval) (r' : R)
  : Prop :=
  exists r, In r src /\ rf_rewrap r = Ok r' /\ is_secondary r = false
            /\ rf_rg_id r = rg /\ identifier r = Ok id.

Definition acc_ok (src : list R) (w : @gstate R) : Prop :=
  match w with
  | SkipWait => True
  | AccWait rg id acc => acc <> [] /\ forall r', In r' acc -> member_of src rg id r'
  end.

Lemma anchor_acc_ok (src : list R) (r : R) (w : @gstate R) :
  In r src -> anchor r = Ok (Some w) -> acc_ok src w.
Proof.
  intros Hin; unfold anchor.
  destruct (facade_len r) as [n|e]; [|discriminate].
  destruct (Nat.eqb n 0); [discriminate|].
  destruct (is_secondary r) eqn:Hs; [intros Hw; inversion Hw; exact I|].
  destruct (identifier r) as [id|e] eqn:Hi; [|discriminate].
  destruct (rf_rewrap r) as [r'|e] eqn:Hr; [|discriminate].
  intros Hw; inversion Hw; subst; simpl.
  split; [discriminate|]; intros x [<-|[]]; exists r; auto.
Qed.

Lemma go_groups_ok (src0 : list R) :
  forall src w, (forall r, In r src -> In r src0) -> acc_ok src0 w ->
  forall g, In g (groups_of (go w src)) ->
  exists id, snd g <> [] /\ forall r', In r' (snd g) -> member_of src0 (fst g) id r'.
Proof.
  induction src as [|r rest IH]; intros w Hsub Hw g Hg.
  - destruct w as [|rg id acc]; simpl in Hg; [contradiction|].
    destruct Hg as [<-|[]]; exists id; exact Hw.
  - assert (Hsub' : forall x, In x rest -> In x src0)
      by (intros x Hx; apply Hsub; right; exact Hx).
    assert (Hr0 : In r src0) by (apply Hsub; left; reflexivity).
    destruct w as [|rg id acc]; simpl in Hg.
    + destruct (anchor r) as [[w'|]|e] eqn:Ha; simpl in Hg; try contradiction.
      exact (IH w' Hsub' (anchor_acc_ok src0 r w' Hr0 Ha) g Hg).
    + destruct (identifier r) as [idn|e] eqn:Hi; simpl in Hg; [|contradiction].
      destruct (negb (pyval_eqb id idn) || negb (opt_str_eqb rg (rf_rg_id r))) eqn:Hb.
      * rewrite GroupingProps.groups_of_gcons in Hg; destruct Hg as [<-|Hg];
          [exists id; exact Hw|].
        destruct (anchor r) as [[w'|]|e] eqn:Ha; simpl in Hg; try contradiction.
        exact (IH w' Hsub' (anchor_acc_ok src0 r w' Hr0 Ha) g Hg).
      * apply orb_false_iff in Hb as [Hb1 Hb2].
        apply negb_false_iff, pyval_eqb_eq in Hb1; subst idn.
        apply negb_false_iff, opt_str_eqb_eq in Hb2.
        destruct (is_secondary r) eqn:Hs; [exact (IH _ Hsub' Hw g Hg)|].
        destruct (rf_rewrap r) as [r2|e] eqn:Hrw; simpl in Hg; [|contradiction].
        refine (IH _ Hsub' _ g Hg); simpl.
        destruct Hw as [Hne Hw]; split; [destruct acc; [contradiction|discriminate]|].
        intros x Hx; apply in_app_or in Hx as [Hx|[<-|[]]]; [exact (Hw x Hx)|].
        exists r; auto.
Qed.

(** Every group [(rg, reads)] that [group_reads_by_qname] yields is
    non-empty and homogeneous: there is one identifier [id] such that each
    read of the group is [type(r)(r.read)] for a primary read [r] of the
    input whose read group is [rg] and whose identifier is [id]. *)
Theorem groups_homogeneous (src : list R) (g : @group R) :
  In g (groups_of (group_reads_by_qname src)) ->
  exists id, snd g <> []
  /\ forall r', In r' (snd g) ->
       exists r, In r src /\ rf_rewrap r = Ok r' /\ is_secondary r = false
                 /\ rf_rg_id r = fst g /\ identifier r = Ok id.
Proof.
  intros Hg.
  destruct src as [|r rest]; simpl in Hg; [contradiction|].
  destruct (anchor r) as [[w|]|e] eqn:Ha; simpl in Hg; try contradiction.
  refine (go_groups_ok (r :: rest) rest w _ _ g Hg).
  - intros x Hx; right; exact Hx.
  - exact (anchor_acc_ok (r :: rest) r w (in_eq r rest) Ha).
Qed.

Lemma go_run (rg : option string) (id : pyval) (rs src2 : list R) :
  (forall r, In r rs -> identifier r = Ok id /\ rf_rg_id r = rg /\ rf_rewrap r = Ok r) ->
  forall acc,
  go (AccWait rg id acc) (app rs src2)
  = go (AccWait rg id (app acc (filter (fun r => negb (is_secondary r)) rs))) src2.
Proof.
  induction rs as [|r rs IH]; intros Hrs acc; simpl.
  - rewrite app_nil_r; reflexivity.
  - destruct (Hrs r (or_introl eq_refl)) as [Hi [Hg Hw]].
    assert (Hrs' : forall x, In x rs ->
              identifier x = Ok id /\ rf_rg_id x = rg /\ rf_rewrap x = Ok x)
      by (intros x Hx; apply Hrs; right; exact Hx).
    rewrite Hi, Hg, pyval_eqb_refl, opt_str_eqb_refl; simpl.
    destruct (is_secondary r); simpl.
    + apply IH; exact Hrs'.
    + rewrite Hw, IH by exact Hrs'; rewrite <- app_assoc; reflexivity.
Qed.

(** Segments of one template are gathered: if the input starts with a
    primary read [r0] with a non-empty sequence, followed by reads [rs]
    with the same identifier and read group, then the first group yielded
    is [r0] with the primary reads of [rs], in order, and grouping goes on
    with the rest of the input as if it started there, provided that rest
    is empty or starts with a read of another identifier or read group
    (reads are assumed to be rebuilt unchanged by [type(r)(r.read)]). *)
Theorem template_run_grouped (r0 : R) (rs src2 : list R) (id : pyval) (n : nat) :
  facade_len r0 = Ok (S n) -> is_secondary r0 = false ->
  identifier r0 = Ok id -> rf_rewrap r0 = Ok r0 ->
  (forall r, In r rs ->
     identifier r = Ok id /\ rf_rg_id r = rf_rg_id r0 /\ rf_rewrap r = Ok r) ->
  (match src2 with
   | [] => True
   | r :: _ => exists idn, identifier r = Ok idn
                 /\ (pyval_eqb id idn = false \/ opt_str_eqb (rf_rg_id r0) (rf_rg_id r) = false)
   end) ->
  group_reads_by_qname (r0 :: app rs src2)
  = gcons (rf_rg_id r0, r0 :: filter (fun r => negb (is_secondary r)) rs)
      (group_reads_by_qname src2).
Proof.
  intros Hl Hs Hi Hw Hrs Hnext.
  assert (Ha : anchor r0 = Ok (Some (AccWait (rf_rg_id r0) id [r0])))
    by (unfold anchor; rewrite Hl, Hs, Hi, Hw; reflexivity).
  unfold group_reads_by_qname at 1; rewrite Ha, go_run by exact Hrs.
  destruct src2 as [|r rest]; [reflexivity|].
  destruct Hnext as [idn [Hin Hd]]; simpl; rewrite Hin.
  replace (negb (pyval_eqb id idn) || negb (opt_str_eqb (rf_rg_id r0) (rf_rg_id r)))
    with true by (destruct Hd as [E|E]; rewrite E; [reflexivity|symmetry; apply orb_true_r]).
  reflexivity.
Qed.

End Extra.

Lemma groups_homogeneous_witness :
  In (Some "X", [aread "a" 0 "X" "ACGT"; aread "a" 64 "X" "TT"])
     (groups_of (group_reads_by_qname
        [aread "a" 0 "X" "ACGT"; aread "a" 0x100 "X" "G"; aread "a" 64 "X" "TT";
         aread "b" 0 "X" "C"]))
  /\ exists id, [aread "a" 0 "X" "ACGT"; aread "a" 64 "X" "TT"] <> []
     /\ forall r', In r' [aread "a" 0 "X" "ACGT"; aread "a" 64 "X" "TT"] ->
        exists r, In r [aread "a" 0 "X" "ACGT"; aread "a" 0x100 "X" "G";
                        aread "a" 64 "X" "TT"; aread "b" 0 "X" "C"]
                  /\ rf_rewrap r = Ok r' /\ is_secondary r = false
                  /\ rf_rg_id r = Some "X" /\ identifier r = Ok id.
Proof.
  assert (Hin : In (Some "X", [aread "a" 0 "X" "ACGT"; aread "a" 64 "X" "TT"])
     (groups_of (group_reads_by_qname
        [aread "a" 0 "X" "ACGT"; aread "a" 0x100 "X" "G"; aread "a" 64 "X" "TT";
         aread "b" 0 "X" "C"]))) by (vm_compute; left; reflexivity).
  split; [exact Hin|].
  exact (groups_homogeneous (R:=AlignedFacade.t) _ _ Hin).
Defined.

Lemma template_run_grouped_witness :
  group_reads_by_qname
    (aread "a" 0 "X" "ACGT" :: app [aread "a" 0x900 "X" "G"; aread "a" 128 "X" "TT"]
                                   [aread "b" 0 "X" "C"])
  = gcons (rf_rg_id (aread "a" 0 "X" "ACGT"), aread "a" 0 "X" "ACGT"
                     :: filter (fun r => negb (is_secondary r))
                          [aread "a" 0x900 "X" "G"; aread "a" 128 "X" "TT"])
      (group_reads_by_qname [aread "b" 0 "X" "C"]).
Proof.
  apply (template_run_grouped (R:=AlignedFacade.t) (aread "a" 0 "X" "ACGT")
           [aread "a" 0x900 "X" "G"; aread "a" 128 "X" "TT"] [aread "b" 0 "X" "C"]
           (PyStr "a") 3); try reflexivity.
  - intros r [<-|[<-|[]]]; repeat split; reflexivity.
  - exists (PyStr "b"); split; [reflexivity|left; reflexivity].
Defined.

End GroupingExtra.

(** ** Read-group defaulting and consistency in [ReadSplitter] *)
Module SplitterExtra.
Import Grouping Splitter GroupingProps GroupingExtra Inputs.
Local Open Scope string_scope.

Section Extra.
Context {R : Type} `{ReadFacade R}.

(** The iteration [o] with its groups replaced by [gs]. *)
Definition with_groups (o : @gout R) (gs : list (@group R)) : @gout R :=
  match o with GDone _ => GDone gs | GErr _ e => GErr gs e end.

Lemma check_rest_none (d : option string) (gs : list (@group R)) (tail : @gout R) :
  check_rest None d gs tail
  = fold_right gcons tail (map (fun g => (or_default (fst g) d, snd g)) gs).
Proof. induction gs as [|[rg rs] gs IH]; simpl; [reflexivity|rewrite IH; reflexivity]. Qed.

Lemma fold_gcons_tail (gs : list (@group R)) (o : @gout R) :
  fold_right gcons (tail_of o) gs = with_groups o gs.
Proof.
  induction gs as [|g gs IH]; [destruct o; reflexivity|].
  simpl; rewrite IH; destruct o; reflexivity.
Qed.

(** Without a header, [ReadSplitter] checks nothing and substitutes the
    default read group for a missing (or empty) one in every group except
    the first, which it yields with its read group as the grouper gave it;
    the grouper's ending, normal or an exception, is passed on. *)
Theorem no_header_first_group_not_defaulted (sp : splitter) (src : list R)
  (rg0 : option string) (rs0 : list R) (gs : list (@group R)) :
  rg_set sp = None ->
  groups_of (group_reads_by_qname src) = (rg0, rs0) :: gs ->
  split_iter sp src
  = with_groups (group_reads_by_qname src)
      ((rg0, rs0) :: map (fun g => (or_default (fst g) (default_rg sp), snd g)) gs).
Proof.
  intros Hs Hg; unfold split_iter; rewrite Hg, Hs; simpl.
  rewrite check_rest_none, fold_gcons_tail.
  destruct (group_reads_by_qname src); reflexivity.
Qed.

Lemma fold_gcons_err (gs : list (@group R)) (e : pyexc) :
  fold_right gcons (GErr [] e) gs = GErr gs e.
Proof. induction gs as [|g gs IH]; simpl; [reflexivity|rewrite IH; reflexivity]. Qed.

Lemma check_rest_single_agree (x : option string) (d : option string)
  (gs : list (@group R)) (tail : @gout R) :
  (forall g, In g gs -> or_default (fst g) d = x) ->
  check_rest (Some [x]) d gs tail
  = fold_right gcons tail (map (fun g => (x, snd g)) gs).
Proof.
  induction gs as [|[rg rs] gs IH]; intros Hall; simpl; [reflexivity|].
  pose proof (Hall (rg, rs) (or_introl eq_refl)) as Hx; simpl in Hx; rewrite Hx.
  rewrite opt_str_eqb_refl; simpl.
  rewrite IH by (intros g Hg; apply Hall; right; exact Hg); reflexivity.
Qed.

Lemma check_rest_single_disagree (x : option string) (d : option string)
  (gs1 : list (@group R)) (rg : option string) (rs : list R)
  (gs2 : list (@group R)) (tail : @gout R) :
  (forall g, In g gs1 -> or_default (fst g) d = x) ->
  or_default rg d <> x ->
  check_rest (Some [x]) d (app gs1 ((rg, rs) :: gs2)) tail
  = fold_right gcons (GErr [] (NameError "FormatParseError"))
      (map (fun g => (x, snd g)) gs1).
Proof.
  intros Hall Hne; induction gs1 as [|[rg1 rs1] gs1 IH]; simpl.
  - destruct (opt_str_eqb (or_default rg d) x) eqn:E;
      [apply opt_str_eqb_eq in E; contradiction|reflexivity].
  - pose proof (Hall (rg1, rs1) (or_introl eq_refl)) as Hx; simpl in Hx; rewrite Hx.
    rewrite opt_str_eqb_refl; simpl.
    rewrite IH by (intros g Hg; apply Hall; right; exact Hg); reflexivity.
Qed.

(** With a header whose ["RG"] list is empty, the first group's read group
    (after defaulting) becomes the only one allowed: if every later group
    has it too, all groups are yielded under it and the grouper's ending is
    passed on. *)
Theorem empty_rg_list_consistent_groups (sp : splitter) (src : list R)
  (rg0 : option string) (rs0 : list R) (gs : list (@group R)) :
  rg_set sp = Some [] ->
  groups_of (group_reads_by_qname src) = (rg0, rs0) :: gs ->
  (forall g, In g gs -> or_default (fst g) (default_rg sp) = or_default rg0 (default_rg sp)) ->
  split_iter sp src
  = with_groups (group_reads_by_qname src)
      (map (fun g => (or_default rg0 (default_rg sp), snd g)) ((rg0, rs0) :: gs)).
Proof.
  intros Hs Hg Hall; unfold split_iter; rewrite Hg, Hs; simpl.
  rewrite check_rest_single_agree by exact Hall.
  rewrite fold_gcons_tail; destruct (group_reads_by_qname src); reflexivity.
Qed.

(** With a header whose ["RG"] list is empty, the first later group whose
    read group (after defaulting) differs from the first group's ends the
    iteration, after the groups before it, with the [NameError] raised by
    evaluating the unbound name [FormatParseError]. *)
Theorem empty_rg_list_other_group_fails (sp : splitter) (src : list R)
  (rg0 : option string) (rs0 : list R) (gs1 : list (@group R))
  (rg : option string) (rs : list R) (gs2 : list (@group R)) :
  rg_set sp = Some [] ->
  groups_of (group_reads_by_qname src) = (rg0, rs0) :: app gs1 ((rg, rs) :: gs2) ->
  (forall g, In g gs1 -> or_default (fst g) (default_rg sp) = or_default rg0 (default_rg sp)) ->
  or_default rg (default_rg sp) <> or_default rg0 (default_rg sp) ->
  split_iter sp src
  = GErr (map (fun g => (or_default rg0 (default_rg sp), snd g)) ((rg0, rs0) :: gs1))
      (NameError "FormatParseError").
Proof.
  intros Hs Hg Hall Hne; unfold split_iter; rewrite Hg, Hs; simpl.
  rewrite check_rest_single_disagree by assumption.
  rewrite fold_gcons_err; reflexivity.
Qed.

End Extra.

Definition sr (title seq : string) : SimpleRead.t := (PyStr title, PyStr seq, PyStr seq).

Lemma no_header_first_group_not_defaulted_witness :
  split_iter {| rg_set := None; default_rg := Some "G" |} [sr "a" "AC"; sr "b" "GT"]
  = GDone [(None, [sr "a" "AC"]); (Some "G", [sr "b" "GT"])].
Proof.
  refine (eq_trans (no_header_first_group_not_defaulted
            {| rg_set := None; default_rg := Some "G" |} [sr "a" "AC"; sr "b" "GT"]
            None [sr "a" "AC"] [(None, [sr "b" "GT"])] eq_refl eq_refl) _).
  vm_compute; reflexivity.
Defined.

Lemma empty_rg_list_consistent_groups_witness :
  split_iter {| rg_set := Some []; default_rg := Some "G" |}
    [aread "a" 0 "" "AC"; aread "b" 0 "G" "GT"]
  = GDone [(Some "G", [aread "a" 0 "" "AC"]); (Some "G", [aread "b" 0 "G" "GT"])].
Proof.
  refine (eq_trans (empty_rg_list_consistent_groups
            {| rg_set := Some []; default_rg := Some "G" |}
            [aread "a" 0 "" "AC"; aread "b" 0 "G" "GT"]
            (Some "") [aread "a" 0 "" "AC"] [(Some "G", [aread "b" 0 "G" "GT"])]
            eq_refl eq_refl ltac:(intros g [<-|[]]; reflexivity)) _).
  vm_compute; reflexivity.
Defined.

Lemma empty_rg_list_other_group_fails_witness :
  split_iter {| rg_set := Some []; default_rg := None |}
    [aread "a" 0 "A" "AC"; aread "b" 0 "A" "GT"; aread "c" 0 "B" "T"]
  = GErr [(Some "A", [aread "a" 0 "A" "AC"]); (Some "A", [aread "b" 0 "A" "GT"])]
      (NameError "FormatParseError").
Proof.
  refine (eq_trans (empty_rg_list_other_group_fails
            {| rg_set := Some []; default_rg := None |}
            [aread "a" 0 "A" "AC"; aread "b" 0 "A" "GT"; aread "c" 0 "B" "T"]
            (Some "A") [aread "a" 0 "A" "AC"] [(Some "A", [aread "b" 0 "A" "GT"])]
            (Some "B") [aread "c" 0 "B" "T"] [] eq_refl eq_refl
            ltac:(intros g [<-|[]]; reflexivity) ltac:(discriminate)) _).
  vm_compute; reflexivity.
Defined.

End SplitterExtra.


(** ** Identifier and description of a title *)
Module IdentifierExtra.
Local Open Scope string_scope.

Lemma drop_while_app_all (p : ascii -> bool) (l1 l2 : list ascii) :
  forallb p l1 = true -> drop_while p (app l1 l2) = drop_while p l2.
Proof.
  induction l1 as [|c l1 IH]; simpl; [reflexivity|].
  intros H; apply andb_true_iff in H as [Hc Hl]; rewrite Hc; auto.
Qed.

Lemma drop_while_stop (p : ascii -> bool) (l : list ascii) :
  match l with [] => True | c :: _ => p c = false end -> drop_while p l = l.
Proof. destruct l as [|c l]; simpl; [reflexivity|intros H; rewrite H; reflexivity]. Qed.

Lemma take_while_app_all (p : ascii -> bool) (l1 l2 : list ascii) :
  forallb p l1 = true ->
  match l2 with [] => True | c :: _ => p c = false end ->
  take_while p (app l1 l2) = l1.
Proof.
  induction l1 as [|c l1 IH]; simpl; intros H1 H2.
  - destruct l2 as [|c l2]; simpl; [reflexivity|rewrite H2; reflexivity].
  - apply andb_true_iff in H1 as [Hc Hl]; rewrite Hc, IH; auto.
Qed.

(** A text title made of optional leading whitespace, a token without
    whitespace, then either nothing more or whitespace followed by a
    description starting with a non-whitespace character, is split into
    that token as identifier and that description (trailing whitespace
    included) as description; the description is [''] when there is
    none. *)
Theorem identifier_description_of_title (ws0 tok ws desc : list ascii) :
  forallb str_isspace ws0 = true ->
  tok <> [] -> forallb (fun c => negb (str_isspace c)) tok = true ->
  forallb str_isspace ws = true ->
  desc = [] \/ (ws <> [] /\ exists c d, desc = c :: d /\ str_isspace c = false) ->
  parse_identifier (PyStr (string_of_list_ascii (app ws0 (app tok (app ws desc)))))
  = Ok (PyStr (string_of_list_ascii tok), PyStr (string_of_list_ascii desc)).
Proof.
  intros Hws0 Htok Htokns Hws Hdesc.
  unfold parse_identifier, split_ws1; rewrite list_ascii_of_string_of_list_ascii.
  rewrite drop_while_app_all by exact Hws0.
  destruct tok as [|t tok']; [contradiction|].
  assert (Ht : str_isspace t = false)
    by (simpl in Htokns; apply andb_true_iff in Htokns as [H _];
        apply negb_true_iff; exact H).
  rewrite (drop_while_stop str_isspace (app (t :: tok') (app ws desc)))
    by (simpl; exact Ht).
  set (tok := t :: tok') in *.
  assert (Hnext : match app ws desc with [] => True
                  | c :: _ => negb (str_isspace c) = false end).
  { destruct ws as [|w ws'].
    - destruct Hdesc as [->|[Hne _]]; [exact I|contradiction].
    - simpl in Hws; apply andb_true_iff in Hws as [Hw _]; simpl; rewrite Hw; reflexivity. }
  assert (Hrest : drop_while str_isspace
                    (drop_while (fun c => negb (str_isspace c)) (app tok (app ws desc)))
                  = desc).
  { rewrite drop_while_app_all by exact Htokns.
    rewrite (drop_while_stop _ (app ws desc)) by exact Hnext.
    rewrite drop_while_app_all by exact Hws.
    apply drop_while_stop.
    destruct Hdesc as [->|[_ [c [d [-> Hc]]]]]; [exact I|exact Hc]. }
  replace (app tok (app ws desc)) with (t :: app tok' (app ws desc)) by reflexivity.
  cbv zeta; fold tok.
  replace (t :: app tok' (app ws desc)) with (app tok (app ws desc)) by reflexivity.
  rewrite Hrest, (take_while_app_all _ _ _ Htokns Hnext).
  destruct desc as [|c d]; reflexivity.
Qed.

Lemma identifier_description_of_title_witness :
  parse_identifier (PyStr (string_of_list_ascii
    (app [" "%char] (app ["r"%char; "1"%char] (app [" "%char; " "%char]
       ["l"%char; "a"%char; " "%char]))))) = Ok (PyStr "r1", PyStr "la ").
Proof.
  apply (identifier_description_of_title [" "%char] ["r"%char; "1"%char]
           [" "%char; " "%char] ["l"%char; "a"%char; " "%char]);
    try reflexivity; [discriminate|].
  right; split; [discriminate|exists "l"%char, ["a"%char; " "%char]; split; reflexivity].
Defined.

End IdentifierExtra.

(** ** FASTA: one record per header line *)
Module FastaHeaders.
Import Fasta FastaViews FastaExtra.
Local Open Scope string_scope.

(** Keys alternate from [k] on, and no group is empty. *)
Fixpoint alternating (k : bool) (gs : list (bool * list string)) : Prop :=
  match gs with
  | [] => True
  | (k', item) :: gs' => k' = k /\ item <> [] /\ alternating (negb k) gs'
  end.

Lemma groupby_from_alternating (src : list string) :
  forall k cur, cur <> [] -> alternating k (groupby_from k cur src).
Proof.
  induction src as [|l src IH]; intros k cur Hc; simpl.
  - auto.
  - destruct (Bool.eqb (is_header l) k) eqn:E.
    + apply IH; destruct cur; [contradiction|discriminate].
    + simpl; split; [reflexivity|split; [exact Hc|]].
      replace (negb k) with (is_header l)
        by (destruct (is_header l), k; simpl in E |- *; congruence).
      apply IH; discriminate.
Qed.

Lemma groupby_from_last_key (src : list string) :
  forall k cur d, last (map fst (groupby_from k cur src)) d = last (map is_header src) k.
Proof.
  induction src as [|l src IH]; intros k cur d; [reflexivity|].
  change (map is_header (l :: src)) with (is_header l :: map is_header src).
  rewrite last_cons_default; cbn [groupby_from].
  destruct (Bool.eqb (is_header l) k) eqn:E.
  - apply Bool.eqb_prop in E; rewrite E; apply IH.
  - change (map fst ((k, cur) :: groupby_from (is_header l) [l] src))
      with (k :: map fst (groupby_from (is_header l) [l] src)).
    rewrite last_cons_default; apply IH.
Qed.

Lemma headers_of_uniform (gs : list (bool * list string)) :
  Forall uniform gs ->
  concat (map snd (filter fst gs)) = filter is_header (concat (map snd gs)).
Proof.
  induction gs as [|[k item] gs IH]; intros Hf; simpl; [reflexivity|].
  inversion Hf as [|? ? Hu Hf']; subst.
  rewrite filter_app, <- IH by exact Hf'.
  unfold uniform in Hu; simpl in Hu.
  destruct k; simpl.
  - rewrite (filter_ext_in is_header (fun _ => true) item), filter_true; [reflexivity|].
    intros l Hl; rewrite Hu by exact Hl; reflexivity.
  - rewrite (filter_ext_in is_header (fun _ => false) item), filter_false; [reflexivity|].
    intros l Hl; rewrite Hu by exact Hl; reflexivity.
Qed.

Lemma group_on_separator_from_headers (n : nat) :
  forall gs hd, length gs <= n -> alternating true gs -> last (map fst gs) false = false ->
  map fst (group_on_separator_from hd gs)
  = map (fun h => Some (header_tail_of h)) (concat (map snd (filter fst gs))).
Proof.
  induction n as [|n IH]; intros gs hd Hlen Halt Hlast.
  - destruct gs; [reflexivity|simpl in Hlen; lia].
  - destruct gs as [|[k1 item1] [|[k2 item2] gs]]; [reflexivity| |].
    + simpl in Halt, Hlast; destruct Halt as [-> _]; discriminate.
    + simpl in Halt; destruct Halt as [-> [Hne1 [-> [Hne2 Halt]]]].
      assert (Hlast' : last (map fst gs) false = false).
      { destruct gs as [|g gs]; [reflexivity|].
        change (map fst ((true, item1) :: (false, item2) :: g :: gs))
          with (true :: false :: map fst (g :: gs)) in Hlast.
        rewrite !last_cons_default in Hlast; exact Hlast. }
      cbn [group_on_separator_from filter fst snd map concat].
      rewrite map_app; cbn [map fst].
      rewrite (IH gs) by (simpl in Hlen; lia || assumption).
      rewrite map_map, map_app; cbn beta.
      set (T := map header_tail_of item1).
      assert (HT : T <> []) by (unfold T; destruct item1; [contradiction|discriminate]).
      assert (E : map (fun h => Some (header_tail_of h)) item1
                  = app (map (fun h => Some h) (removelast T)) [Some (last T "")]).
      { rewrite <- (map_map header_tail_of (fun h => Some h)); fold T.
        rewrite (app_removelast_last "" HT) at 1; rewrite map_app; reflexivity. }
      rewrite E, <- app_assoc; reflexivity.
Qed.

Lemma group_on_separator_headers (h : string) (rest : list string) :
  is_header h = true -> ends_with_content (h :: rest) = true ->
  map fst (group_on_separator (h :: rest))
  = map (fun l => Some (header_tail_of l)) (filter is_header (h :: rest)).
Proof.
  intros Hh Hend; unfold group_on_separator, groupby; rewrite Hh.
  destruct (groupby_from_parts true [h] rest) as [Hf Hc].
  { intros x [<-|[]]; exact Hh. }
  rewrite (group_on_separator_from_headers (length (groupby_from true [h] rest))).
  - rewrite headers_of_uniform, Hc by exact Hf; reflexivity.
  - reflexivity.
  - apply groupby_from_alternating; discriminate.
  - rewrite groupby_from_last_key.
    unfold ends_with_content in Hend.
    change (map is_header (h :: rest)) with (is_header h :: map is_header rest) in Hend.
    rewrite last_cons_default, Hh in Hend; apply negb_true_iff; exact Hend.
Qed.

(** An input that starts with a header line and ends with a content line
    is read without error and yields exactly one record per header line,
    in order, each under its header (the text after [>], stripped);
    headers directly followed by another header get a record with no
    sequence lines. *)
Theorem one_record_per_header (h : string) (rest : list string) :
  is_header h = true -> ends_with_content (h :: rest) = true ->
  exists recs, records (h :: rest) = Ok recs
  /\ map fst recs = map header_tail_of (filter is_header (h :: rest)).
Proof.
  intros Hh Hend.
  pose proof (group_on_separator_headers h rest Hh Hend) as E.
  unfold records.
  destruct (group_on_separator (h :: rest)) as [|[o ls] gs] eqn:G;
    simpl in E; rewrite Hh in E; [discriminate|].
  injection E as Eo Egs; subst o.
  eexists; split; [reflexivity|].
  simpl; rewrite Hh; cbn [map]; f_equal.
  rewrite map_map.
  transitivity (map (fun o => match o with Some h0 => h0 | None => "" end) (map fst gs));
    [rewrite map_map; reflexivity|].
  rewrite Egs, map_map; reflexivity.
Qed.

Lemma one_record_per_header_witness :
  is_header ">a desc" = true /\ ends_with_content Inputs.fasta_src = true
  /\ exists recs, records Inputs.fasta_src = Ok recs
     /\ map fst recs = map header_tail_of (filter is_header Inputs.fasta_src).
Proof.
  split; [vm_compute; reflexivity|split; [vm_compute; reflexivity|]].
  apply one_record_per_header; vm_compute; reflexivity.
Defined.

End FastaHeaders.

(** ** Objects yielded by [FastqReader] are one shared object *)
Module FastqObjectsExtra.
Import FastqObjects.

Lemma iter_objects_refs (a : nat) (recs : list Fastq.record) :
  forall h, fst (iter_objects a h recs) = repeat a (length recs).
Proof.
  induction recs as [|r rs IH]; intros h; simpl; [reflexivity|].
  specialize (IH (set_read h a (record_value r))).
  destruct (iter_objects a (set_read h a (record_value r)) rs); simpl in *.
  rewrite IH; reflexivity.
Qed.

Lemma iter_objects_store (a : nat) (rs : list Fastq.record) (r : Fastq.record) :
  forall h, snd (iter_objects a h (app rs [r])) a = record_value r.
Proof.
  induction rs as [|r' rs IH]; intros h; simpl.
  - unfold set_read; rewrite Nat.eqb_refl; reflexivity.
  - specialize (IH (set_read h a (record_value r'))).
    destruct (iter_objects a (set_read h a (record_value r')) (app rs [r])); exact IH.
Qed.

Lemma map_repeat_const {A B} (f : A -> B) (a : A) (b : B) (n : nat) :
  f a = b -> map f (repeat a n) = repeat b n.
Proof.
  intros E; induction n as [|n IH]; simpl; [reflexivity|rewrite E, IH; reflexivity].
Qed.

(** Collecting the reads of a [FastqReader] ([list(reader)]) gives the
    same object once per record; once iteration is over, every collected
    entry reads back as the last record. *)
Theorem collected_reads_all_last (a : nat) (h : store) (rs : list Fastq.record)
  (r : Fastq.record) :
  let '(refs, h') := iter_objects a h (app rs [r]) in
  refs = repeat a (S (length rs))
  /\ map h' refs = repeat (record_value r) (S (length rs)).
Proof.
  pose proof (iter_objects_refs a (app rs [r]) h) as Hr.
  pose proof (iter_objects_store a rs r h) as Hs.
  destruct (iter_objects a h (app rs [r])) as [refs h']; simpl in Hr, Hs.
  rewrite length_app, Nat.add_comm in Hr; simpl in Hr; subst refs.
  split; [reflexivity|].
  exact (map_repeat_const h' a (record_value r) (S (length rs)) Hs).
Qed.

End FastqObjectsExtra.
